(** * MapView: three map panels for SOS alerts

    A shallow embedding of the three [MapView] components of the
    repository (Leaflet, Mapbox GL with a token typed by the user, Mapbox GL
    with a token fetched from a remote function) and of the properties the
    specification states about them.

    Conventions.
    - A JavaScript [number] is a binary64 float ([float]); coordinates are
      only stored and passed on, never computed with.
    - A JavaScript string is a [string]; the emoji are their UTF-8 bytes.
    - The map SDKs are not part of the repository.  An SDK object is a record
      of what the component asked of it: the options a map was built with,
      the controls and listeners added, the camera request made last, the
      markers added and removed.  Bounds are kept as the points they were
      built from.
    - React state, refs and effects are explicit: a [useState] cell and a
      [useRef] cell are fields of the component record, an effect is a
      function on that record, and an event (a resolved request, a map
      [load] event, new props, a keystroke, unmount) is a step that runs the
      effects whose dependencies changed. *)

From Stdlib Require Import String Ascii List Bool Arith ZArith Lia PrimFloat.
Import ListNotations.
Open Scope string_scope.

Set Implicit Arguments.
Set Warnings "-inexact-float".

(** ** JavaScript values *)

(** Truthiness of a string: every string but the empty one. *)
Definition truthy (s : string) : bool :=
  match s with
  | EmptyString => false
  | String _ _ => true
  end.

(** The double quote, for literals that contain one. *)
Definition dq : string := String (ascii_of_nat 34) EmptyString.

(** The line feed of a template literal. *)
Definition nl : string := String (ascii_of_nat 10) EmptyString.

(** [sub] occurs in [s]. *)
Definition contains (s sub : string) : Prop :=
  exists pre post, s = pre ++ sub ++ post.

(** White space removed by [String.prototype.trim], within ASCII: space,
    tab, line feed, vertical tab, form feed, carriage return. *)
Definition is_space (c : ascii) : bool :=
  let n := nat_of_ascii c in
  ((n =? 32) || ((9 <=? n) && (n <=? 13)))%nat.

Fixpoint trim_start (s : string) : string :=
  match s with
  | EmptyString => EmptyString
  | String c r => if is_space c then trim_start r else s
  end.

Fixpoint rev_string (s acc : string) : string :=
  match s with
  | EmptyString => acc
  | String c r => rev_string r (String c acc)
  end.

Definition trim (s : string) : string :=
  rev_string (trim_start (rev_string (trim_start s) "")) "".

(** ** The data model *)

Definition LatLng : Type := (float * float)%type.
Definition LngLat : Type := (float * float)%type.

Record Alert : Type := {
  id : string;
  sosId : string;
  type : string;
  latitude : float;
  longitude : float;
  status : string
}.

(** ** The Leaflet panel *)

Module Leaflet.

Definition getTypeIcon (type : string) : string :=
  if type =? "MEDICAL" then "🚑"
  else if type =? "POLICE" then "🚔"
  else if type =? "FIRE" then "🚒"
  else "🚨".

Definition getStatusColor (status : string) : string :=
  if status =? "PENDING" then "#ef4444"
  else if status =? "ASSIGNED" then "#f59e0b"
  else if status =? "RESOLVED" then "#10b981"
  else "#6b7280".

Record DivIcon : Type := {
  html : string;
  className : string;
  iconSize : Z * Z;
  iconAnchor : Z * Z
}.

Definition createCustomIcon (type status : string) : DivIcon :=
  let color := getStatusColor status in
  let emoji := getTypeIcon type in
  {| html :=
       nl ++ "      <div style=" ++ dq ++ nl ++
       "        background-color: " ++ color ++ "; " ++ nl ++
       "        width: 32px; " ++ nl ++
       "        height: 32px; " ++ nl ++
       "        border-radius: 50%; " ++ nl ++
       "        display: flex; " ++ nl ++
       "        align-items: center; " ++ nl ++
       "        justify-content: center; " ++ nl ++
       "        border: 2px solid white; " ++ nl ++
       "        box-shadow: 0 2px 4px rgba(0,0,0,0.2);" ++ nl ++
       "        font-size: 16px;" ++ nl ++
       "      " ++ dq ++ ">" ++ nl ++
       "        " ++ emoji ++ nl ++
       "      </div>" ++ nl ++
       "    ";
     className := "custom-marker";
     iconSize := (32, 32)%Z;
     iconAnchor := (16, 16)%Z |}.

(** What the component asks of the Leaflet map. *)
Inductive Bounds : Type :=
| getBounds (group : list LatLng)
| pad (b : Bounds) (ratio : float).

Inductive MapCall : Type :=
| fitBounds (b : Bounds)
| setView (center : LatLng) (zoom : float).

(** The effect of [FitBounds], run when [alerts] or the map changes. *)
Definition FitBounds (alerts : list Alert) : MapCall :=
  if (0 <? length alerts)%nat then
    let group := map (fun alert => (latitude alert, longitude alert)) alerts in
    fitBounds (pad (getBounds group) 0.1%float)
  else
    setView (28.6139, 77.2090)%float 10%float.

(** The popup of a marker: the text children of its three lines. *)
Record Popup : Type := {
  heading : list string;
  sosLine : list string;
  statusLine : list string
}.

Record Marker : Type := {
  key : string;
  position : LatLng;
  icon : DivIcon;
  popup : Popup
}.

Definition popupText (p : Popup) : string :=
  String.concat "" (heading p ++ sosLine p ++ statusLine p)%list.

(** [alerts.map((alert) => <Marker ...>)] of [MapView]. *)
Definition MapView_markers (alerts : list Alert) : list Marker :=
  map (fun alert =>
         {| key := id alert;
            position := (latitude alert, longitude alert);
            icon := createCustomIcon (type alert) (status alert);
            popup := {| heading := [type alert; " Alert"];
                        sosLine := ["SOS ID: "; sosId alert];
                        statusLine := ["Status: "; status alert] |} |})
      alerts.

(** The map container starts at the Delhi centre. *)
Definition MapContainer_center : LatLng := (28.6139, 77.2090)%float.
Definition MapContainer_zoom : float := 10%float.

End Leaflet.

(** ** Lists as JavaScript arrays and object heaps *)

(** Replace the element of index [i], when there is one. *)
Fixpoint upd {A : Type} (l : list A) (i : nat) (f : A -> A) : list A :=
  match l, i with
  | [], _ => []
  | x :: r, O => f x :: r
  | x :: r, S j => x :: upd r j f
  end.

(** [array.forEach(f)] on a state. *)
Definition forEach {A St : Type} (l : list A) (f : A -> St -> St) (s : St) : St :=
  fold_left (fun st x => f x st) l s.

(** ** The Mapbox GL panels

    The two Mapbox files share the icon and colour functions, the map
    effect with its cleanup and the marker effect word for word; they are
    embedded once. *)

Module Mapbox.

Definition getTypeIcon (type : string) : string :=
  if type =? "MEDICAL" then "🚑"
  else if type =? "POLICE" then "🚔"
  else if type =? "FIRE" then "🚒"
  else "🚨".

Definition getStatusColor (status : string) : string :=
  if status =? "PENDING" then "border-pending bg-pending/20"
  else if status =? "ASSIGNED" then "border-assigned bg-assigned/20"
  else if status =? "RESOLVED" then "border-resolved bg-resolved/20"
  else "border-muted bg-muted/20".

(** *** SDK objects *)

Record Element : Type := {
  className : string;
  innerHTML : string;
  title : string
}.

Record Popup : Type := {
  offset : Z;
  popupHTML : string
}.

(** A [mapboxgl.Marker]: its element, its position once set, the map it
    is on (by reference) and its popup. *)
Record Marker : Type := {
  element : Element;
  lngLat : option LngLat;
  onMap : option nat;
  markerPopup : option Popup
}.

Inductive Camera : Type :=
| centerZoom (center : LngLat) (zoom : float)
| fitBounds (bounds : list LngLat) (padding : Z).

(** A [mapboxgl.Map]: the access token in force when it was built, its
    style, the camera asked for last, its controls with their corner,
    whether a [load] listener is registered, whether [load] has fired and
    whether [remove] was called. *)
Record Map : Type := {
  token : string;
  style : string;
  camera : Camera;
  controls : list (string * string);
  loadListener : bool;
  loadFired : bool;
  removed : bool
}.

(** *** The component: props, state cells, refs and the SDK heap *)

Record Comp : Type := {
  alerts : list Alert;          (* props *)
  mapboxToken : string;         (* useState *)
  isMapLoaded : bool;           (* useState(false) *)
  mapContainer_current : bool;  (* useRef: the div is attached *)
  map_current : option nat;     (* useRef<mapboxgl.Map | null> *)
  markers_current : list nat;   (* useRef<mapboxgl.Marker[]> *)
  cleanup : bool;               (* React holds the cleanup of the map effect *)
  mounted : bool;               (* React has the component mounted *)
  accessToken : string;         (* mapboxgl.accessToken *)
  maps : list Map;              (* every map built, by reference *)
  markerObjs : list Marker      (* every marker built, by reference *)
}.

Definition set_alerts (v : list Alert) (s : Comp) : Comp :=
  {| alerts := v; mapboxToken := mapboxToken s; isMapLoaded := isMapLoaded s;
     mapContainer_current := mapContainer_current s;
     map_current := map_current s; markers_current := markers_current s;
     cleanup := cleanup s; mounted := mounted s;
     accessToken := accessToken s; maps := maps s;
     markerObjs := markerObjs s |}.

Definition setMapboxToken (v : string) (s : Comp) : Comp :=
  {| alerts := alerts s; mapboxToken := v; isMapLoaded := isMapLoaded s;
     mapContainer_current := mapContainer_current s;
     map_current := map_current s; markers_current := markers_current s;
     cleanup := cleanup s; mounted := mounted s;
     accessToken := accessToken s; maps := maps s;
     markerObjs := markerObjs s |}.

Definition setIsMapLoaded (v : bool) (s : Comp) : Comp :=
  {| alerts := alerts s; mapboxToken := mapboxToken s; isMapLoaded := v;
     mapContainer_current := mapContainer_current s;
     map_current := map_current s; markers_current := markers_current s;
     cleanup := cleanup s; mounted := mounted s;
     accessToken := accessToken s; maps := maps s;
     markerObjs := markerObjs s |}.

Definition set_mapContainer (v : bool) (s : Comp) : Comp :=
  {| alerts := alerts s; mapboxToken := mapboxToken s;
     isMapLoaded := isMapLoaded s; mapContainer_current := v;
     map_current := map_current s; markers_current := markers_current s;
     cleanup := cleanup s; mounted := mounted s;
     accessToken := accessToken s; maps := maps s;
     markerObjs := markerObjs s |}.

Definition set_map (v : option nat) (s : Comp) : Comp :=
  {| alerts := alerts s; mapboxToken := mapboxToken s;
     isMapLoaded := isMapLoaded s;
     mapContainer_current := mapContainer_current s;
     map_current := v; markers_current := markers_current s;
     cleanup := cleanup s; mounted := mounted s;
     accessToken := accessToken s; maps := maps s;
     markerObjs := markerObjs s |}.

Definition set_markers (v : list nat) (s : Comp) : Comp :=
  {| alerts := alerts s; mapboxToken := mapboxToken s;
     isMapLoaded := isMapLoaded s;
     mapContainer_current := mapContainer_current s;
     map_current := map_current s; markers_current := v;
     cleanup := cleanup s; mounted := mounted s;
     accessToken := accessToken s; maps := maps s;
     markerObjs := markerObjs s |}.

Definition set_cleanup (v : bool) (s : Comp) : Comp :=
  {| alerts := alerts s; mapboxToken := mapboxToken s;
     isMapLoaded := isMapLoaded s;
     mapContainer_current := mapContainer_current s;
     map_current := map_current s; markers_current := markers_current s;
     cleanup := v; mounted := mounted s;
     accessToken := accessToken s; maps := maps s;
     markerObjs := markerObjs s |}.

Definition set_mounted (v : bool) (s : Comp) : Comp :=
  {| alerts := alerts s; mapboxToken := mapboxToken s;
     isMapLoaded := isMapLoaded s;
     mapContainer_current := mapContainer_current s;
     map_current := map_current s; markers_current := markers_current s;
     cleanup := cleanup s; mounted := v;
     accessToken := accessToken s; maps := maps s;
     markerObjs := markerObjs s |}.

Definition set_accessToken (v : string) (s : Comp) : Comp :=
  {| alerts := alerts s; mapboxToken := mapboxToken s;
     isMapLoaded := isMapLoaded s;
     mapContainer_current := mapContainer_current s;
     map_current := map_current s; markers_current := markers_current s;
     cleanup := cleanup s; mounted := mounted s;
     accessToken := v; maps := maps s;
     markerObjs := markerObjs s |}.

Definition set_maps (v : list Map) (s : Comp) : Comp :=
  {| alerts := alerts s; mapboxToken := mapboxToken s;
     isMapLoaded := isMapLoaded s;
     mapContainer_current := mapContainer_current s;
     map_current := map_current s; markers_current := markers_current s;
     cleanup := cleanup s; mounted := mounted s;
     accessToken := accessToken s; maps := v;
     markerObjs := markerObjs s |}.

Definition set_markerObjs (v : list Marker) (s : Comp) : Comp :=
  {| alerts := alerts s; mapboxToken := mapboxToken s;
     isMapLoaded := isMapLoaded s;
     mapContainer_current := mapContainer_current s;
     map_current := map_current s; markers_current := markers_current s;
     cleanup := cleanup s; mounted := mounted s;
     accessToken := accessToken s; maps := maps s;
     markerObjs := v |}.

(** *** SDK calls *)

(** [new mapboxgl.Marker(el)]: a fresh marker, on no map. *)
Definition newMarker (el : Element) (s : Comp) : nat * Comp :=
  (length (markerObjs s),
   set_markerObjs
     (markerObjs s ++ [{| element := el; lngLat := None; onMap := None;
                          markerPopup := None |}]) s).

Definition onMarker (marker : nat) (f : Marker -> Marker) (s : Comp) : Comp :=
  set_markerObjs (upd (markerObjs s) marker f) s.

Definition setLngLat (p : LngLat) (o : Marker) : Marker :=
  {| element := element o; lngLat := Some p; onMap := onMap o;
     markerPopup := markerPopup o |}.

Definition addTo (m : nat) (o : Marker) : Marker :=
  {| element := element o; lngLat := lngLat o; onMap := Some m;
     markerPopup := markerPopup o |}.

Definition setPopup (p : Popup) (o : Marker) : Marker :=
  {| element := element o; lngLat := lngLat o; onMap := onMap o;
     markerPopup := Some p |}.

(** [marker.remove()]: the marker leaves its map. *)
Definition remove (o : Marker) : Marker :=
  {| element := element o; lngLat := lngLat o; onMap := None;
     markerPopup := markerPopup o |}.

Definition onMapObj (m : nat) (f : Map -> Map) (s : Comp) : Comp :=
  set_maps (upd (maps s) m f) s.

Definition addControl (c : string * string) (o : Map) : Map :=
  {| token := token o; style := style o; camera := camera o;
     controls := controls o ++ [c]; loadListener := loadListener o;
     loadFired := loadFired o; removed := removed o |}.

Definition on_load (o : Map) : Map :=
  {| token := token o; style := style o; camera := camera o;
     controls := controls o; loadListener := true;
     loadFired := loadFired o; removed := removed o |}.

Definition fire_load (o : Map) : Map :=
  {| token := token o; style := style o; camera := camera o;
     controls := controls o; loadListener := loadListener o;
     loadFired := true; removed := removed o |}.

Definition set_camera (c : Camera) (o : Map) : Map :=
  {| token := token o; style := style o; camera := c;
     controls := controls o; loadListener := loadListener o;
     loadFired := loadFired o; removed := removed o |}.

Definition map_remove (o : Map) : Map :=
  {| token := token o; style := style o; camera := camera o;
     controls := controls o; loadListener := loadListener o;
     loadFired := loadFired o; removed := true |}.

(** [bounds.extend(p)] from [new mapboxgl.LngLatBounds()]. *)
Definition extend (p : LngLat) (bounds : list LngLat) : list LngLat :=
  bounds ++ [p].

(** *** The map effect, [useEffect(..., [mapboxToken])] *)

Definition Delhi : LngLat := (77.2090, 28.6139)%float.

Definition initEffect (s : Comp) : Comp :=
  if negb (mapContainer_current s) || negb (truthy (mapboxToken s)) then s
  else
    let s1 := set_accessToken (mapboxToken s) s in
    let m := length (maps s1) in
    let s2 :=
      set_map (Some m)
        (set_maps
           (maps s1 ++ [{| token := accessToken s1;
                           style := "mapbox://styles/mapbox/light-v11";
                           camera := centerZoom Delhi 10%float;
                           controls := [];
                           loadListener := false;
                           loadFired := false;
                           removed := false |}]) s1) in
    let s3 := onMapObj m (addControl ("NavigationControl", "top-right")) s2 in
    let s4 := onMapObj m on_load s3 in
    set_cleanup true s4.

(** The function the map effect returns. *)
Definition cleanupEffect (s : Comp) : Comp :=
  let s1 := forEach (markers_current s) (fun marker => onMarker marker remove) s in
  let s2 := set_markers [] s1 in
  let s3 := match map_current s2 with
            | Some m => onMapObj m map_remove s2
            | None => s2
            end in
  setIsMapLoaded false s3.

(** *** The marker effect, [useEffect(..., [alerts, isMapLoaded])] *)

Definition markerElement (alert : Alert) : Element :=
  {| className :=
       "w-10 h-10 flex items-center justify-center rounded-full border-2 shadow-lg cursor-pointer hover:scale-110 transition-transform "
       ++ getStatusColor (status alert);
     innerHTML :=
       "<span class=" ++ dq ++ "text-lg" ++ dq ++ ">"
       ++ getTypeIcon (type alert) ++ "</span>";
     title := type alert ++ " - SOS #" ++ sosId alert |}.

Definition markerPopupOf (alert : Alert) : Popup :=
  {| offset := 25;
     popupHTML :=
       nl ++ "          <div class=" ++ dq ++ "p-2" ++ dq ++ ">" ++ nl ++
       "            <h3 class=" ++ dq ++ "font-semibold" ++ dq ++ ">"
         ++ type alert ++ " Alert</h3>" ++ nl ++
       "            <p class=" ++ dq ++ "text-sm text-gray-600" ++ dq
         ++ ">SOS ID: " ++ sosId alert ++ "</p>" ++ nl ++
       "            <p class=" ++ dq ++ "text-sm" ++ dq ++ ">Status: "
         ++ status alert ++ "</p>" ++ nl ++
       "          </div>" ++ nl ++
       "        " |}.

(** The body of [alerts.forEach] for one alert, on the map [m]. *)
Definition addMarker (m : nat) (alert : Alert) (s : Comp) : Comp :=
  let el := markerElement alert in
  let (marker, s1) := newMarker el s in
  let s2 := onMarker marker (setLngLat (longitude alert, latitude alert)) s1 in
  let s3 := onMarker marker (addTo m) s2 in
  let popup := markerPopupOf alert in
  let s4 := onMarker marker (setPopup popup) s3 in
  set_markers (markers_current s4 ++ [marker]) s4.

Definition syncEffect (s : Comp) : Comp :=
  match map_current s with
  | None => s
  | Some m =>
    if negb (isMapLoaded s) then s
    else
      let s1 := forEach (markers_current s) (fun marker => onMarker marker remove) s in
      let s2 := set_markers [] s1 in
      let s3 := forEach (alerts s) (addMarker m) s2 in
      if (0 <? length (alerts s))%nat then
        let bounds :=
          forEach (alerts s)
                  (fun alert => extend (longitude alert, latitude alert)) [] in
        onMapObj m (set_camera (fitBounds bounds 50)) s3
      else s3
  end.

(** *** Renders and events

    A state setter writes its cell at once; the effects whose
    dependencies changed then run in the order of the source, the cleanup
    of an effect before its new run. *)

(** First render: nothing is attached, no map, no markers. *)
Definition initial (alerts : list Alert) : Comp :=
  {| alerts := alerts; mapboxToken := ""; isMapLoaded := false;
     mapContainer_current := false; map_current := None;
     markers_current := []; cleanup := false; mounted := true;
     accessToken := ""; maps := []; markerObjs := [] |}.

(** Mount: both effects run once after the first render. *)
Definition mount (alerts : list Alert) : Comp :=
  syncEffect (initEffect (initial alerts)).

(** [setMapboxToken(v)] and the render it causes; [container] tells
    whether that render shows the map container. *)
Definition changeToken (v : string) (container : bool) (s : Comp) : Comp :=
  if mapboxToken s =? v then s
  else
    let s1 := set_mapContainer container (setMapboxToken v s) in
    let s2 := if cleanup s1 then cleanupEffect s1 else s1 in
    let s3 := initEffect (set_cleanup false s2) in
    if Bool.eqb (isMapLoaded s3) (isMapLoaded s) then s3 else syncEffect s3.

(** The [load] event of the map [m]: it fires once, on a map that has a
    listener and was not removed; the listener is
    [() => setIsMapLoaded(true)]. *)
Definition loadEvent (m : nat) (s : Comp) : Comp :=
  match nth_error (maps s) m with
  | Some o =>
    if mounted s && loadListener o && negb (loadFired o) && negb (removed o)
    then
      let s1 := onMapObj m fire_load s in
      let s2 := setIsMapLoaded true s1 in
      if isMapLoaded s then s2 else syncEffect s2
    else s
  | None => s
  end.

(** The parent renders the panel with a new [alerts] array. *)
Definition newProps (l : list Alert) (s : Comp) : Comp :=
  if mounted s then syncEffect (set_alerts l s) else s.

(** Unmount: the cleanup of the map effect runs if there is one. *)
Definition unmount (s : Comp) : Comp :=
  if mounted s then
    let s1 := if cleanup s then cleanupEffect s else s in
    set_mounted false (set_cleanup false (set_mapContainer false s1))
  else s.

(** The markers shown on the map [m]. *)
Definition shownOn (m : nat) (s : Comp) : list Marker :=
  filter (fun o => match onMap o with
                   | Some m' => (m' =? m)%nat
                   | None => false
                   end) (markerObjs s).

End Mapbox.

(** ** The panel with a token typed by the user *)

Module ClientToken.
Import Mapbox.

(** What the card shows above the footer. *)
Inductive View : Type :=
| TokenForm (value : string) (disabled : bool)
| MapPanel.

Definition render (s : Comp) : View :=
  if negb (truthy (mapboxToken s)) then
    TokenForm (mapboxToken s) (negb (truthy (trim (mapboxToken s))))
  else MapPanel.

Definition containerShown (v : View) : bool :=
  match v with
  | MapPanel => true
  | TokenForm _ _ => false
  end.

Definition handleTokenSubmit (s : Comp) : Comp :=
  if truthy (trim (mapboxToken s)) then
    s (* Token will be used in the useEffect above *)
  else s.

(** [onChange={(e) => setMapboxToken(e.target.value)}] *)
Definition onChange (value : string) (s : Comp) : Comp :=
  changeToken value
              (containerShown (render (setMapboxToken value s))) s.

Inductive Event : Type :=
| Change (value : string)
| Click
| Load (m : nat)
| Props (alerts : list Alert)
| Unmount.

(** The input and the button exist only while the form is shown; a
    disabled button does not call its handler. *)
Definition step (e : Event) (s : Comp) : Comp :=
  match e with
  | Change value =>
    match render s with
    | TokenForm _ _ => if mounted s then onChange value s else s
    | MapPanel => s
    end
  | Click =>
    match render s with
    | TokenForm _ disabled =>
      if mounted s && negb disabled then handleTokenSubmit s else s
    | MapPanel => s
    end
  | Load m => loadEvent m s
  | Props l => newProps l s
  | Unmount => unmount s
  end.

Definition run (alerts : list Alert) (events : list Event) : Comp :=
  forEach events step (mount alerts).

End ClientToken.

(** ** The panel with a token fetched from the remote function *)

Module ServerToken.
Import Mapbox.

(** The answer of [supabase.functions.invoke('get-mapbox-token')]: the
    promise rejects, or resolves to [{ data, error }] with [data] of shape
    [{ token: string }] when present. *)
Record Data : Type := { data_token : option string }.

Inductive Outcome : Type :=
| Rejected (reason : string)
| Resolved (data : option Data) (error : option string).

Inductive Action : Type :=
| SetMapboxToken (v : string)
| SetTokenError (v : bool)
| ConsoleError (label : string) (error : string).

(** The body of [fetchMapboxToken] after the [await]. *)
Definition fetchMapboxToken (o : Outcome) : list Action :=
  let catch error :=
    [ConsoleError "Error fetching Mapbox token:" error; SetTokenError true] in
  match o with
  | Rejected reason => catch reason
  | Resolved data error =>
    match error with
    | Some e => catch e
    | None =>
      match data with
      | Some d =>
        match data_token d with
        | Some t => if truthy t then [SetMapboxToken t] else [SetTokenError true]
        | None => [SetTokenError true]
        end
      | None => [SetTokenError true]
      end
    end
  end.

Record State : Type := {
  comp : Comp;
  tokenError : bool;     (* useState(false) *)
  pending : bool;        (* the request is in flight *)
  invocations : nat;     (* calls of the remote function so far *)
  console : list string  (* what was logged *)
}.

Definition set_comp (c : Comp) (s : State) : State :=
  {| comp := c; tokenError := tokenError s; pending := pending s;
     invocations := invocations s; console := console s |}.

Inductive View : Type :=
| ErrorMessage (text : string)
| Loading (text : string)
| MapPanel.

Definition render (s : State) : View :=
  if tokenError s then
    ErrorMessage "Mapbox token not configured. Please contact administrator."
  else if negb (truthy (mapboxToken (comp s))) then Loading "Loading map..."
  else MapPanel.

Definition containerShown (v : View) : bool :=
  match v with
  | MapPanel => true
  | _ => false
  end.

Definition perform (a : Action) (s : State) : State :=
  match a with
  | SetMapboxToken v =>
    let shown :=
      containerShown (render (set_comp (setMapboxToken v (comp s)) s)) in
    set_comp (changeToken v shown (comp s)) s
  | SetTokenError v =>
    let s1 := {| comp := comp s; tokenError := v; pending := pending s;
                 invocations := invocations s; console := console s |} in
    set_comp (set_mapContainer (containerShown (render s1)) (comp s1)) s1
  | ConsoleError label error =>
    {| comp := comp s; tokenError := tokenError s; pending := pending s;
       invocations := invocations s;
       console := console s ++ [label ++ " " ++ error] |}
  end.

(** Mount: the token effect calls the remote function once, then the map
    effect and the marker effect run. *)
Definition mount (alerts : list Alert) : State :=
  {| comp := Mapbox.mount alerts; tokenError := false; pending := true;
     invocations := 1; console := [] |}.

Inductive Event : Type :=
| Settle (o : Outcome)
| Load (m : nat)
| Props (alerts : list Alert)
| Unmount.

(** The request settles once; the setters of a component that is no
    longer mounted do nothing. *)
Definition settle (o : Outcome) (s : State) : State :=
  if pending s then
    let s1 := {| comp := comp s; tokenError := tokenError s; pending := false;
                 invocations := invocations s; console := console s |} in
    forEach (fetchMapboxToken o)
            (fun a st =>
               match a with
               | ConsoleError _ _ => perform a st
               | _ => if mounted (comp st) then perform a st else st
               end) s1
  else s.

Definition step (e : Event) (s : State) : State :=
  match e with
  | Settle o => settle o s
  | Load m => set_comp (loadEvent m (comp s)) s
  | Props l => set_comp (newProps l (comp s)) s
  | Unmount => set_comp (unmount (comp s)) s
  end.

Definition run (alerts : list Alert) (events : list Event) : State :=
  forEach events step (mount alerts).

End ServerToken.

(** ** Vocabulary of the statements *)

(** [marker.remove()] on every marker of [ids], as the two [forEach] of the
    effects do it. *)
Definition removeAll (ids : list nat) (objs : list Mapbox.Marker)
  : list Mapbox.Marker :=
  fold_left (fun o i => upd o i Mapbox.remove) ids objs.

(** The marker the marker effect leaves on the map [m] for an alert. *)
Definition markerOf (m : nat) (alert : Alert) : Mapbox.Marker :=
  {| Mapbox.element := Mapbox.markerElement alert;
     Mapbox.lngLat := Some (longitude alert, latitude alert);
     Mapbox.onMap := Some m;
     Mapbox.markerPopup := Some (Mapbox.markerPopupOf alert) |}.

(** The state between the two halves of the marker effect and of the
    cleanup: every marker of the collection removed, the collection empty. *)
Definition cleared (s : Mapbox.Comp) : Mapbox.Comp :=
  Mapbox.set_markers []
    (Mapbox.set_markerObjs
       (removeAll (Mapbox.markers_current s) (Mapbox.markerObjs s)) s).

(** The states a Mapbox panel can be in: after any sequence of events, in
    either variant. *)
Definition Reachable (s : Mapbox.Comp) : Prop :=
  (exists alerts events, s = ClientToken.run alerts events) \/
  (exists alerts events, s = ServerToken.comp (ServerToken.run alerts events)).

(** What holds of every reachable state: a marker on a map is in the
    collection; the collection holds references of markers that exist; a
    map that was not removed is the current one and has a cleanup waiting;
    the loaded flag is up only when the current map fired [load]; a cleanup
    waits only while the component is mounted; without a cleanup waiting the
    collection is empty. *)
Record Inv (s : Mapbox.Comp) : Prop := {
  inv_tracked : forall i o,
      nth_error (Mapbox.markerObjs s) i = Some o ->
      Mapbox.onMap o <> None -> In i (Mapbox.markers_current s);
  inv_bound : forall i,
      In i (Mapbox.markers_current s) -> i < length (Mapbox.markerObjs s);
  inv_live : forall m o,
      nth_error (Mapbox.maps s) m = Some o -> Mapbox.removed o = false ->
      Mapbox.map_current s = Some m /\ Mapbox.cleanup s = true;
  inv_loaded :
      Mapbox.isMapLoaded s = true ->
      exists m o, Mapbox.map_current s = Some m /\
                  nth_error (Mapbox.maps s) m = Some o /\
                  Mapbox.loadListener o = true /\
                  Mapbox.loadFired o = true /\
                  Mapbox.removed o = false;
  inv_cleanup : Mapbox.cleanup s = true -> Mapbox.mounted s = true;
  inv_idle : Mapbox.cleanup s = false -> Mapbox.markers_current s = []
}.

(** Nothing is left: no marker is on a map, the collection is empty, every
    map built was removed and the loaded flag is down. *)
Record Quiet (s : Mapbox.Comp) : Prop := {
  quiet_off : forall i o,
      nth_error (Mapbox.markerObjs s) i = Some o -> Mapbox.onMap o = None;
  quiet_markers : Mapbox.markers_current s = [];
  quiet_maps : forall m o,
      nth_error (Mapbox.maps s) m = Some o -> Mapbox.removed o = true;
  quiet_loaded : Mapbox.isMapLoaded s = false
}.

(** The map the map effect builds for a token. *)
Definition builtMap (token : string) : Mapbox.Map :=
  {| Mapbox.token := token;
     Mapbox.style := "mapbox://styles/mapbox/light-v11";
     Mapbox.camera := Mapbox.centerZoom Mapbox.Delhi 10%float;
     Mapbox.controls := [("NavigationControl", "top-right")];
     Mapbox.loadListener := true;
     Mapbox.loadFired := false;
     Mapbox.removed := false |}.

(** A failed request: the promise rejects or resolves with an error. *)
Definition failed (o : ServerToken.Outcome) : bool :=
  match o with
  | ServerToken.Rejected _ => true
  | ServerToken.Resolved _ (Some _) => true
  | ServerToken.Resolved _ None => false
  end.

(** The token a response carries, when it has the shape
    [{ token: string }]. *)
Definition carried (o : ServerToken.Outcome) : option string :=
  match o with
  | ServerToken.Resolved (Some d) None => ServerToken.data_token d
  | _ => None
  end.

(** The coordinates the marker effect hands to [bounds.extend]. *)
Definition lngLatOf (alert : Alert) : LngLat :=
  (longitude alert, latitude alert).

(** The map shows the alerts of the props: while the loaded flag is down
    the collection is empty and no marker is on a map; while it is up the
    markers on the current map are those of the alerts, in their order, the
    collection has one reference per alert, and a list that is not empty
    has the camera fitted to its coordinates. *)
Record Display (s : Mapbox.Comp) : Prop := {
  display_idle :
      Mapbox.isMapLoaded s = false ->
      Mapbox.markers_current s = [] /\
      forall i o, nth_error (Mapbox.markerObjs s) i = Some o ->
                  Mapbox.onMap o = None;
  display_loaded :
      Mapbox.isMapLoaded s = true ->
      exists m o,
        Mapbox.map_current s = Some m /\
        nth_error (Mapbox.maps s) m = Some o /\
        Mapbox.shownOn m s = List.map (markerOf m) (Mapbox.alerts s) /\
        length (Mapbox.markers_current s) = length (Mapbox.alerts s) /\
        (Mapbox.alerts s <> [] ->
         Mapbox.camera o
         = Mapbox.fitBounds (List.map lngLatOf (Mapbox.alerts s)) 50)
}.

(** A call on a map that keeps what the map effect gave it and whether it
    was removed. *)
Definition keepsBuild (f : Mapbox.Map -> Mapbox.Map) : Prop :=
  forall o, Mapbox.token (f o) = Mapbox.token o /\
            Mapbox.style (f o) = Mapbox.style o /\
            Mapbox.controls (f o) = Mapbox.controls o /\
            Mapbox.loadListener (f o) = Mapbox.loadListener o /\
            Mapbox.removed (f o) = Mapbox.removed o.

(** At most one map: either the token cell is empty and no map was ever
    built, or it is not and the one map built carries that token, the
    style, the navigation control and the load listener; that map is
    removed exactly when the component is no longer mounted. *)
Inductive Single (s : Mapbox.Comp) : Prop :=
| single_none :
    Mapbox.mapboxToken s = "" -> Mapbox.maps s = [] ->
    Mapbox.map_current s = None -> Mapbox.cleanup s = false ->
    Mapbox.accessToken s = "" -> Single s
| single_built (o : Mapbox.Map) :
    Mapbox.mapboxToken s <> "" -> Mapbox.maps s = [o] ->
    Mapbox.map_current s = Some 0 ->
    Mapbox.accessToken s = Mapbox.mapboxToken s ->
    Mapbox.token o = Mapbox.mapboxToken s ->
    Mapbox.style o = "mapbox://styles/mapbox/light-v11" ->
    Mapbox.controls o = [("NavigationControl", "top-right")] ->
    Mapbox.loadListener o = true ->
    Mapbox.removed o = negb (Mapbox.mounted s) ->
    Mapbox.cleanup s = Mapbox.mounted s -> Single s.

(** The panel with a fetched token: one map at most; while the request is
    in flight the token cell is empty and the error flag down; once it has
    settled on a mounted component exactly one of the two is set; the error
    flag is never up beside a token. *)
Record ServerInv (st : ServerToken.State) : Prop := {
  sv_single : Single (ServerToken.comp st);
  sv_pending :
      ServerToken.pending st = true ->
      Mapbox.mapboxToken (ServerToken.comp st) = "" /\
      ServerToken.tokenError st = false;
  sv_settled :
      ServerToken.pending st = false ->
      Mapbox.mounted (ServerToken.comp st) = true ->
      (ServerToken.tokenError st = true /\
       Mapbox.mapboxToken (ServerToken.comp st) = "") \/
      (ServerToken.tokenError st = false /\
       Mapbox.mapboxToken (ServerToken.comp st) <> "");
  sv_error :
      ServerToken.tokenError st = true ->
      Mapbox.mapboxToken (ServerToken.comp st) = ""
}.

(** The state setters among the actions of the token effect. *)
Definition isSetter (a : ServerToken.Action) : bool :=
  match a with
  | ServerToken.ConsoleError _ _ => false
  | _ => true
  end.

Definition isLog (a : ServerToken.Action) : bool :=
  match a with
  | ServerToken.ConsoleError _ _ => true
  | _ => false
  end.

(** Sample alerts, for the instances of the statements below. *)
Definition sampleAlert : Alert :=
  {| id := "a1"; sosId := "SOS-17"; type := "MEDICAL";
     latitude := 28.7041%float; longitude := 77.1025%float;
     status := "PENDING" |}.

Definition otherAlert : Alert :=
  {| id := "a2"; sosId := "SOS-18"; type := "MEDICAL";
     latitude := 19.0760%float; longitude := 72.8777%float;
     status := "PENDING" |}.

Definition unknownAlert : Alert :=
  {| id := "a3"; sosId := "SOS-19"; type := "FLOOD";
     latitude := 13.0827%float; longitude := 80.2707%float;
     status := "ESCALATED" |}.

(** * Properties *)

(** ** Strings *)

Lemma contains_here (sub rest : string) : contains (sub ++ rest) sub.
Proof. exists "", rest. reflexivity. Qed.

Lemma contains_end (sub : string) : contains sub sub.
Proof. exists "", "". simpl. induction sub; simpl; congruence. Qed.

Lemma contains_skip (a t sub : string) : contains t sub -> contains (a ++ t) sub.
Proof.
  intros (pre & post & ->). exists (a ++ pre), post.
  induction a; simpl; congruence.
Qed.

(** Find a piece of a concatenation. *)
Ltac find_substring :=
  repeat first [apply contains_here | apply contains_end | apply contains_skip].

Lemma string_app_assoc (a b c : string) : (a ++ b) ++ c = a ++ (b ++ c).
Proof. induction a as [|x a IH]; simpl; [reflexivity | now rewrite IH]. Qed.

Lemma truthy_true (s : string) : truthy s = true <-> s <> "".
Proof. destruct s; simpl; split; congruence. Qed.

(** ** Icons and colours *)

Section Enumerations.

Variables type status : string.

Lemma leaflet_icon_default :
  type <> "MEDICAL" -> type <> "POLICE" -> type <> "FIRE" ->
  Leaflet.getTypeIcon type = "🚨".
Proof.
  intros H1 H2 H3. unfold Leaflet.getTypeIcon.
  apply String.eqb_neq in H1, H2, H3. now rewrite H1, H2, H3.
Qed.

Lemma mapbox_icon_default :
  type <> "MEDICAL" -> type <> "POLICE" -> type <> "FIRE" ->
  Mapbox.getTypeIcon type = "🚨".
Proof.
  intros H1 H2 H3. unfold Mapbox.getTypeIcon.
  apply String.eqb_neq in H1, H2, H3. now rewrite H1, H2, H3.
Qed.

Lemma leaflet_colour_default :
  status <> "PENDING" -> status <> "ASSIGNED" -> status <> "RESOLVED" ->
  Leaflet.getStatusColor status = "#6b7280".
Proof.
  intros H1 H2 H3. unfold Leaflet.getStatusColor.
  apply String.eqb_neq in H1, H2, H3. now rewrite H1, H2, H3.
Qed.

Lemma mapbox_colour_default :
  status <> "PENDING" -> status <> "ASSIGNED" -> status <> "RESOLVED" ->
  Mapbox.getStatusColor status = "border-muted bg-muted/20".
Proof.
  intros H1 H2 H3. unfold Mapbox.getStatusColor.
  apply String.eqb_neq in H1, H2, H3. now rewrite H1, H2, H3.
Qed.

End Enumerations.

(** ** Heaps *)

Section Heaps.

Context {A : Type}.
Implicit Types (l : list A) (f : A -> A).

Lemma length_upd l i f : length (upd l i f) = length l.
Proof.
  revert i; induction l as [|x l IH]; intros [|i]; simpl; auto.
Qed.

Lemma nth_error_upd_same l i f :
  nth_error (upd l i f) i = option_map f (nth_error l i).
Proof.
  revert i; induction l as [|x l IH]; intros [|i]; simpl; auto.
Qed.

Lemma nth_error_upd_other l i j f :
  i <> j -> nth_error (upd l i f) j = nth_error l j.
Proof.
  revert i j; induction l as [|x l IH]; intros [|i] [|j] Hij; simpl; auto.
  congruence.
Qed.

Lemma upd_app_last l x f : upd (l ++ [x])%list (length l) f = (l ++ [f x])%list.
Proof. induction l as [|y l IH]; simpl; [reflexivity | now rewrite IH]. Qed.

End Heaps.

Lemma length_removeAll ids objs : length (removeAll ids objs) = length objs.
Proof.
  revert objs; induction ids as [|i ids IH]; intros objs; simpl; auto.
  unfold removeAll in *. simpl. now rewrite IH, length_upd.
Qed.

(** A marker of the list is off its map afterwards; no marker is put on a
    map. *)
Lemma removeAll_off ids objs j o :
  nth_error (removeAll ids objs) j = Some o ->
  (In j ids -> Mapbox.onMap o = None) /\
  exists o0, nth_error objs j = Some o0 /\
             (Mapbox.onMap o = None \/ o = o0).
Proof.
  revert objs o; induction ids as [|i ids IH]; intros objs o Ho.
  - split; [intros [] | exists o; auto].
  - change (removeAll (i :: ids) objs) with (removeAll ids (upd objs i Mapbox.remove)) in Ho.
    destruct (IH _ _ Ho) as [Hin (o1 & Ho1 & Hcase)].
    destruct (Nat.eq_dec i j) as [->|Hij].
    + rewrite nth_error_upd_same in Ho1.
      destruct (nth_error objs j) as [o0|] eqn:E; [|discriminate].
      injection Ho1 as <-.
      assert (Mapbox.onMap o = None) by (destruct Hcase as [Hc|Hc]; [|subst o]; auto).
      split; [auto | exists o0; auto].
    + rewrite nth_error_upd_other in Ho1 by assumption.
      split; [| exists o1; auto].
      intros [Heq|Hin']; [congruence | auto].
Qed.

(** ** The effects in closed form *)

Module Closed.
Import Mapbox.

Lemma forEach_remove ids s :
  forEach ids (fun marker => onMarker marker remove) s
  = set_markerObjs (removeAll ids (markerObjs s)) s.
Proof.
  revert s; induction ids as [|i ids IH]; intros s.
  - now destruct s.
  - unfold forEach in *. simpl. rewrite IH. reflexivity.
Qed.

Lemma addMarker_eq m alert s :
  addMarker m alert s
  = set_markers (markers_current s ++ [length (markerObjs s)])%list
      (set_markerObjs (markerObjs s ++ [markerOf m alert])%list s).
Proof.
  unfold addMarker, newMarker, onMarker. cbn - [upd markerElement markerPopupOf].
  rewrite !upd_app_last. reflexivity.
Qed.

Lemma forEach_addMarker m l s :
  forEach l (addMarker m) s
  = set_markers
      (markers_current s ++ seq (length (markerObjs s)) (length l))%list
      (set_markerObjs (markerObjs s ++ List.map (markerOf m) l)%list s).
Proof.
  revert s; induction l as [|alert l IH]; intros s.
  - cbn. rewrite !app_nil_r. now destruct s.
  - unfold forEach in *. simpl fold_left. rewrite IH, addMarker_eq.
    cbn - [markerOf]. rewrite length_app, <- !app_assoc. simpl.
    now rewrite Nat.add_1_r.
Qed.

Lemma forEach_extend (l : list Alert) (acc : list LngLat) :
  forEach l (fun alert => extend (longitude alert, latitude alert)) acc
  = (acc ++ List.map (fun alert => (longitude alert, latitude alert)) l)%list.
Proof.
  revert acc; induction l as [|alert l IH]; intros acc.
  - cbn. now rewrite app_nil_r.
  - unfold forEach in *. simpl. rewrite IH. unfold extend.
    now rewrite <- app_assoc.
Qed.

(** The marker effect when its guard lets it run. *)
Lemma syncEffect_eq s m :
  map_current s = Some m -> isMapLoaded s = true ->
  syncEffect s
  = let s3 := forEach (alerts s) (addMarker m) (cleared s) in
    if (0 <? length (alerts s))%nat then
      onMapObj m
        (set_camera
           (fitBounds (List.map (fun alert => (longitude alert, latitude alert))
                                (alerts s)) 50)) s3
    else s3.
Proof.
  intros Hm Hl. unfold syncEffect. rewrite Hm, Hl. cbn [negb].
  rewrite forEach_remove, forEach_extend. reflexivity.
Qed.

Lemma syncEffect_idle s :
  map_current s = None \/ isMapLoaded s = false -> syncEffect s = s.
Proof.
  intros [H|H]; unfold syncEffect; rewrite H; [reflexivity|].
  now destruct (map_current s).
Qed.

Lemma cleanupEffect_eq s :
  cleanupEffect s
  = setIsMapLoaded false
      (match map_current s with
       | Some m => onMapObj m map_remove (cleared s)
       | None => cleared s
       end).
Proof.
  unfold cleanupEffect. rewrite forEach_remove. reflexivity.
Qed.

End Closed.

(** ** The invariant of the Mapbox panels *)

Module Invariant.
Import Mapbox Closed.

Lemma initEffect_eq s :
  mapContainer_current s = true -> mapboxToken s <> "" ->
  initEffect s
  = set_cleanup true
      (set_map (Some (length (maps s)))
         (set_maps (maps s ++ [builtMap (mapboxToken s)])%list
            (set_accessToken (mapboxToken s) s))).
Proof.
  intros Hc Ht. apply truthy_true in Ht.
  unfold initEffect. rewrite Hc, Ht. cbn [negb orb].
  unfold onMapObj. cbn - [upd]. rewrite !upd_app_last. reflexivity.
Qed.

Lemma initEffect_idle s :
  mapContainer_current s = false \/ mapboxToken s = "" -> initEffect s = s.
Proof.
  intros [H|H]; unfold initEffect; rewrite H; [reflexivity|].
  now rewrite orb_true_r.
Qed.

Lemma cleared_off s :
  Inv s ->
  forall i o, nth_error (markerObjs (cleared s)) i = Some o -> onMap o = None.
Proof.
  intros HI i o Ho. cbn in Ho.
  destruct (removeAll_off _ _ _ Ho) as [Hin (o0 & Ho0 & [Hoff| ->])]; auto.
  destruct (onMap o0) eqn:E; auto.
  apply Hin. apply (inv_tracked HI _ Ho0). congruence.
Qed.

Lemma quiet_inv s : Quiet s -> cleanup s = false -> Inv s.
Proof.
  intros [Hoff Hmk Hmaps Hload] Hc. constructor.
  - intros i o Ho Hon. now rewrite (Hoff _ _ Ho) in Hon.
  - rewrite Hmk. intros i [].
  - intros m o Ho Hr. rewrite (Hmaps _ _ Ho) in Hr. discriminate.
  - congruence.
  - congruence.
  - auto.
Qed.

Lemma idle_quiet s : Inv s -> cleanup s = false -> Quiet s.
Proof.
  intros HI Hc.
  assert (Hmaps : forall m o, nth_error (maps s) m = Some o -> removed o = true).
  { intros m o Ho. destruct (removed o) eqn:E; auto.
    destruct (inv_live HI _ Ho E). congruence. }
  constructor; auto.
  - intros i o Ho. destruct (onMap o) eqn:E; auto.
    assert (In i (markers_current s)) by (apply (inv_tracked HI _ Ho); congruence).
    rewrite (inv_idle HI Hc) in H. destruct H.
  - exact (inv_idle HI Hc).
  - destruct (isMapLoaded s) eqn:E; auto.
    destruct (inv_loaded HI E) as (m & o & _ & Ho & _ & _ & Hr).
    rewrite (Hmaps _ _ Ho) in Hr. discriminate.
Qed.

Lemma cleanupEffect_quiet s : Inv s -> Quiet (cleanupEffect s).
Proof.
  intros HI. rewrite cleanupEffect_eq.
  assert (Hoff := cleared_off HI).
  destruct (map_current s) as [m|] eqn:Em; constructor; cbn; auto.
  - intros j o Ho. destruct (Nat.eq_dec m j) as [->|Hmj].
    + rewrite nth_error_upd_same in Ho.
      destruct (nth_error (maps s) j); [|discriminate].
      injection Ho as <-. reflexivity.
    + rewrite nth_error_upd_other in Ho by assumption.
      destruct (removed o) eqn:E; auto.
      destruct (inv_live HI _ Ho E). congruence.
  - intros j o Ho. destruct (removed o) eqn:E; auto.
    destruct (inv_live HI _ Ho E). congruence.
Qed.

(** A change of fields the invariant does not read. *)
Lemma inv_same s s' :
  markerObjs s' = markerObjs s -> markers_current s' = markers_current s ->
  maps s' = maps s -> map_current s' = map_current s ->
  cleanup s' = cleanup s -> isMapLoaded s' = isMapLoaded s ->
  mounted s' = mounted s ->
  Inv s -> Inv s'.
Proof.
  intros E1 E2 E3 E4 E5 E6 E7 [H1 H2 H3 H4 H5 H6].
  constructor; rewrite ?E1, ?E2, ?E3, ?E4, ?E5, ?E6, ?E7; auto.
Qed.

Lemma quiet_same s s' :
  markerObjs s' = markerObjs s -> markers_current s' = markers_current s ->
  maps s' = maps s -> isMapLoaded s' = isMapLoaded s ->
  Quiet s -> Quiet s'.
Proof.
  intros E1 E2 E3 E4 [H1 H2 H3 H4].
  constructor; rewrite ?E1, ?E2, ?E3, ?E4; auto.
Qed.

(** A call on a map that keeps its three flags. *)
Lemma inv_onMapObj s m f :
  (forall o, removed (f o) = removed o /\ loadFired (f o) = loadFired o /\
             loadListener (f o) = loadListener o) ->
  Inv s -> Inv (onMapObj m f s).
Proof.
  intros Hf [H1 H2 H3 H4 H5 H6].
  assert (Hat : forall j o, nth_error (upd (maps s) m f) j = Some o ->
            exists o0, nth_error (maps s) j = Some o0 /\
                       removed o = removed o0 /\ loadFired o = loadFired o0 /\
                       loadListener o = loadListener o0).
  { intros j o Ho. destruct (Nat.eq_dec m j) as [->|Hmj].
    - rewrite nth_error_upd_same in Ho.
      destruct (nth_error (maps s) j) as [o0|]; [|discriminate].
      injection Ho as <-. exists o0. destruct (Hf o0) as (?&?&?). auto.
    - rewrite nth_error_upd_other in Ho by assumption. exists o. auto. }
  constructor; cbn; auto.
  - intros j o Ho Hr. destruct (Hat _ _ Ho) as (o0 & Ho0 & Er & _).
    apply (H3 _ _ Ho0). congruence.
  - intros Hl. destruct (H4 Hl) as (j & o & Hj & Ho & Hls & Hlf & Hr).
    exists j. destruct (Nat.eq_dec m j) as [->|Hmj].
    + exists (f o). rewrite nth_error_upd_same, Ho.
      destruct (Hf o) as (-> & -> & ->). auto.
    + exists o. rewrite nth_error_upd_other by assumption. auto.
Qed.

(** Close a goal on a state that differs from [s0] in fields the
    invariant does not read. *)
Ltac same_as s0 :=
  first [eapply inv_same with (s := s0) | eapply quiet_same with (s := s0)];
  try reflexivity; auto.

Lemma syncEffect_inv s : Inv s -> Inv (syncEffect s).
Proof.
  intros HI.
  destruct (map_current s) as [m|] eqn:Em;
    [|rewrite syncEffect_idle; auto].
  destruct (isMapLoaded s) eqn:El;
    [|rewrite syncEffect_idle; auto].
  rewrite (syncEffect_eq _ Em El). cbv zeta.
  assert (Hc : cleanup s = true).
  { destruct (inv_loaded HI El) as (j & o & _ & Ho & _ & _ & Hr).
    apply (inv_live HI _ Ho Hr). }
  assert (HI3 : Inv (forEach (alerts s) (addMarker m) (cleared s))).
  { rewrite forEach_addMarker. assert (Hoff := cleared_off HI).
    destruct HI as [H1 H2 H3 H4 H5 H6].
    constructor; cbn; auto.
    - intros i o Ho Hon. apply in_seq.
      rewrite length_removeAll.
      destruct (Nat.lt_ge_cases i (length (markerObjs s))) as [Hlt|Hge].
      + rewrite nth_error_app1 in Ho by now rewrite length_removeAll.
        now rewrite (Hoff _ _ Ho) in Hon.
      + split; auto.
        assert (Hlen : i < length (removeAll (markers_current s) (markerObjs s)
                                   ++ List.map (markerOf m) (alerts s))%list)
          by (apply nth_error_Some; congruence).
        rewrite length_app, length_map, length_removeAll in Hlen. exact Hlen.
    - intros i Hi. apply in_seq in Hi.
      rewrite length_removeAll in Hi.
      rewrite length_app, length_map, length_removeAll. lia.
    - congruence. }
  destruct (0 <? length (alerts s))%nat; auto.
  apply inv_onMapObj; auto.
Qed.

Lemma initEffect_inv s :
  Quiet s -> mounted s = true -> Inv (initEffect (set_cleanup false s)).
Proof.
  intros HQ Hm.
  destruct (mapContainer_current s) eqn:Ec;
    [|rewrite initEffect_idle by auto; apply quiet_inv; auto; same_as s].
  destruct (string_dec (mapboxToken s) "") as [Et|Et];
    [rewrite initEffect_idle by auto; apply quiet_inv; auto; same_as s|].
  rewrite initEffect_eq by (cbn; auto).
  destruct HQ as [Hoff Hmk Hmaps Hload].
  constructor; cbn; try congruence.
  - intros i o Ho Hon. now rewrite (Hoff _ _ Ho) in Hon.
  - rewrite Hmk. intros i [].
  - intros j o Ho Hr.
    destruct (Nat.lt_ge_cases j (length (maps s))) as [Hlt|Hge].
    + rewrite nth_error_app1 in Ho by assumption.
      rewrite (Hmaps _ _ Ho) in Hr. discriminate.
    + assert (Hlen : j < length (maps s ++ [builtMap (mapboxToken s)])%list)
        by (apply nth_error_Some; congruence).
      rewrite length_app in Hlen. simpl in Hlen.
      split; [f_equal; lia | reflexivity].
Qed.

Lemma changeToken_inv v c s :
  Inv s -> mounted s = true -> Inv (changeToken v c s).
Proof.
  intros HI Hm. unfold changeToken.
  destruct (mapboxToken s =? v); auto.
  set (s1 := set_mapContainer c (setMapboxToken v s)).
  assert (HI1 : Inv s1) by same_as s.
  set (s2 := if cleanup s1 then cleanupEffect s1 else s1).
  assert (HQ : Quiet s2).
  { unfold s2. destruct (cleanup s1) eqn:E.
    - now apply cleanupEffect_quiet.
    - now apply idle_quiet. }
  assert (Hm2 : mounted s2 = true).
  { unfold s2. destruct (cleanup s1); auto.
    rewrite cleanupEffect_eq. destruct (map_current s1); auto. }
  assert (HI3 := initEffect_inv HQ Hm2).
  destruct (Bool.eqb _ _); auto using syncEffect_inv.
Qed.

Lemma loadEvent_inv m s : Inv s -> Inv (loadEvent m s).
Proof.
  intros HI. unfold loadEvent.
  destruct (nth_error (maps s) m) as [o|] eqn:Eo; auto.
  destruct (mounted s && loadListener o && negb (loadFired o) && negb (removed o))
    eqn:Eg; auto.
  apply andb_prop in Eg as [Eg Hr]. apply andb_prop in Eg as [Eg Hf].
  apply andb_prop in Eg as [Hm Hl]. apply negb_true_iff in Hr.
  destruct (inv_live HI _ Eo Hr) as [Hcur Hcl].
  assert (HI2 : Inv (setIsMapLoaded true (onMapObj m fire_load s))).
  { destruct HI as [H1 H2 H3 H4 H5 H6]. constructor; cbn; auto.
    - intros j o' Ho' Hr'. destruct (Nat.eq_dec m j) as [->|Hmj]; auto.
      rewrite nth_error_upd_other in Ho' by assumption. eauto.
    - intros _. exists m, (fire_load o).
      rewrite nth_error_upd_same, Eo. auto. }
  destruct (isMapLoaded s); auto using syncEffect_inv.
Qed.

Lemma newProps_inv l s : Inv s -> Inv (newProps l s).
Proof.
  intros HI. unfold newProps. destruct (mounted s); auto.
  apply syncEffect_inv. same_as s.
Qed.

Lemma unmount_quiet s :
  Inv s -> mounted s = true ->
  Quiet (unmount s) /\ cleanup (unmount s) = false.
Proof.
  intros HI Hm. unfold unmount. rewrite Hm. split; [|reflexivity].
  destruct (cleanup s) eqn:Ec.
  - assert (HQ := cleanupEffect_quiet HI). same_as (cleanupEffect s).
  - assert (HQ := idle_quiet HI Ec). same_as s.
Qed.

Lemma unmount_inv s : Inv s -> Inv (unmount s).
Proof.
  intros HI. destruct (mounted s) eqn:Hm.
  - destruct (unmount_quiet HI Hm). now apply quiet_inv.
  - unfold unmount. now rewrite Hm.
Qed.

Lemma mount_eq alerts : mount alerts = initial alerts.
Proof. reflexivity. Qed.

Lemma mount_inv alerts : Inv (mount alerts).
Proof.
  rewrite mount_eq. constructor; cbn; try congruence.
  - intros [|i] o; discriminate.
  - intros i [].
  - intros [|m] o; discriminate.
Qed.

End Invariant.

(** ** What the effects leave alone *)

Module Frame.
Import Mapbox Closed.

Lemma syncEffect_frame s :
  let s' := syncEffect s in
  alerts s' = alerts s /\ mapboxToken s' = mapboxToken s /\
  isMapLoaded s' = isMapLoaded s /\
  mapContainer_current s' = mapContainer_current s /\
  map_current s' = map_current s /\ cleanup s' = cleanup s /\
  mounted s' = mounted s /\ accessToken s' = accessToken s.
Proof.
  destruct (map_current s) as [m|] eqn:Em;
    [|cbv zeta; rewrite syncEffect_idle; auto 10].
  destruct (isMapLoaded s) eqn:El;
    [|cbv zeta; rewrite syncEffect_idle; auto 10].
  cbv zeta. rewrite (syncEffect_eq _ Em El), forEach_addMarker. cbv zeta.
  destruct (0 <? length (alerts s))%nat; cbn; auto 10.
Qed.

Lemma initEffect_frame s :
  let s' := initEffect s in
  alerts s' = alerts s /\ mapboxToken s' = mapboxToken s /\
  isMapLoaded s' = isMapLoaded s /\ mounted s' = mounted s /\
  markers_current s' = markers_current s /\ markerObjs s' = markerObjs s.
Proof.
  unfold initEffect.
  destruct (negb (mapContainer_current s) || negb (truthy (mapboxToken s)));
    cbn; auto 10.
Qed.

Lemma cleanupEffect_frame s :
  let s' := cleanupEffect s in
  alerts s' = alerts s /\ mapboxToken s' = mapboxToken s /\
  mounted s' = mounted s /\ map_current s' = map_current s /\
  accessToken s' = accessToken s.
Proof.
  cbv zeta. rewrite cleanupEffect_eq.
  destruct (map_current s) eqn:E; cbn; auto 10.
Qed.

(** [setMapboxToken(v)] leaves [v] in the cell, whatever effects follow. *)
Lemma changeToken_token v c s : mapboxToken (changeToken v c s) = v.
Proof.
  unfold changeToken. destruct (mapboxToken s =? v) eqn:E.
  - now apply String.eqb_eq.
  - set (s1 := set_mapContainer c (setMapboxToken v s)).
    set (s2 := if cleanup s1 then cleanupEffect s1 else s1).
    assert (E2 : mapboxToken s2 = v).
    { unfold s2. destruct (cleanup s1); auto.
      now destruct (cleanupEffect_frame s1) as (_ & -> & _). }
    assert (E3 : mapboxToken (initEffect (set_cleanup false s2)) = v).
    { now destruct (initEffect_frame (set_cleanup false s2)) as (_ & -> & _). }
    destruct (Bool.eqb _ _); auto.
    now destruct (syncEffect_frame (initEffect (set_cleanup false s2)))
      as (_ & -> & _).
Qed.

(** No token change raises the loaded flag. *)
Lemma changeToken_loaded v c s :
  isMapLoaded (changeToken v c s) = true -> isMapLoaded s = true.
Proof.
  unfold changeToken. destruct (mapboxToken s =? v); auto.
  set (s1 := set_mapContainer c (setMapboxToken v s)).
  set (s2 := if cleanup s1 then cleanupEffect s1 else s1).
  assert (E2 : isMapLoaded s2 = true -> isMapLoaded s = true).
  { unfold s2. destruct (cleanup s1); auto.
    rewrite cleanupEffect_eq. cbn. discriminate. }
  assert (E3 : isMapLoaded (initEffect (set_cleanup false s2)) = isMapLoaded s2).
  { now destruct (initEffect_frame (set_cleanup false s2)) as (_ & _ & -> & _). }
  destruct (Bool.eqb _ _).
  - intros H. apply E2. congruence.
  - destruct (syncEffect_frame (initEffect (set_cleanup false s2)))
      as (_ & _ & -> & _). intros H. apply E2. congruence.
Qed.

Lemma loadEvent_token m s : mapboxToken (loadEvent m s) = mapboxToken s.
Proof.
  unfold loadEvent. destruct (nth_error (maps s) m) as [o|]; auto.
  destruct (_ && _); auto. destruct (isMapLoaded s); auto.
  now destruct (syncEffect_frame (setIsMapLoaded true (onMapObj m fire_load s)))
    as (_ & -> & _).
Qed.

Lemma newProps_token l s : mapboxToken (newProps l s) = mapboxToken s.
Proof.
  unfold newProps. destruct (mounted s); auto.
  now destruct (syncEffect_frame (set_alerts l s)) as (_ & -> & _).
Qed.

Lemma unmount_token s : mapboxToken (unmount s) = mapboxToken s.
Proof.
  unfold unmount. destruct (mounted s); auto. cbn.
  destruct (cleanup s); auto.
  now destruct (cleanupEffect_frame s) as (_ & -> & _).
Qed.

Lemma forEach_keeps {A St : Type} (P : St -> Prop) (f : A -> St -> St) l :
  (forall x s, P s -> P (f x s)) -> forall s, P s -> P (forEach l f s).
Proof.
  intros Hf. induction l as [|x l IH]; intros s Hs; [exact Hs|].
  apply IH, Hf, Hs.
Qed.

Lemma forEach_app {A St : Type} (f : A -> St -> St) l1 l2 s :
  forEach (l1 ++ l2)%list f s = forEach l2 f (forEach l1 f s).
Proof. apply fold_left_app. Qed.

End Frame.

(** ** Every reachable state satisfies the invariant *)

Lemma client_step_inv e s : Inv s -> Inv (ClientToken.step e s).
Proof.
  intros HI. destruct e as [v| |m|l|]; cbn.
  - destruct (ClientToken.render s); auto.
    destruct (Mapbox.mounted s) eqn:Hm; auto.
    now apply Invariant.changeToken_inv.
  - destruct (ClientToken.render s); auto.
    unfold ClientToken.handleTokenSubmit.
    destruct (_ && _); auto. destruct (truthy _); auto.
  - now apply Invariant.loadEvent_inv.
  - now apply Invariant.newProps_inv.
  - now apply Invariant.unmount_inv.
Qed.

Lemma server_perform_inv a s :
  Mapbox.mounted (ServerToken.comp s) = true ->
  Inv (ServerToken.comp s) -> Inv (ServerToken.comp (ServerToken.perform a s)).
Proof.
  intros Hm HI. destruct a as [v|v|label error]; cbn; auto.
  - now apply Invariant.changeToken_inv.
  - eapply Invariant.inv_same with (s := ServerToken.comp s); auto.
Qed.

Lemma server_step_inv e s :
  Inv (ServerToken.comp s) -> Inv (ServerToken.comp (ServerToken.step e s)).
Proof.
  intros HI. destruct e as [o|m|l|]; cbn.
  - unfold ServerToken.settle. destruct (ServerToken.pending s); auto.
    apply (Frame.forEach_keeps (fun st => Inv (ServerToken.comp st))); auto.
    intros a st Hst. destruct a; auto.
    + destruct (Mapbox.mounted (ServerToken.comp st)) eqn:Hm; auto.
      now apply server_perform_inv.
    + destruct (Mapbox.mounted (ServerToken.comp st)) eqn:Hm; auto.
      now apply server_perform_inv.
  - now apply Invariant.loadEvent_inv.
  - now apply Invariant.newProps_inv.
  - now apply Invariant.unmount_inv.
Qed.

Lemma reachable_inv s : Reachable s -> Inv s.
Proof.
  intros [(alerts & events & ->)|(alerts & events & ->)].
  - apply (Frame.forEach_keeps Inv); auto using client_step_inv.
    apply Invariant.mount_inv.
  - apply (Frame.forEach_keeps (fun st => Inv (ServerToken.comp st)));
      auto using server_step_inv.
    apply Invariant.mount_inv.
Qed.

(** ** The icon and the colour on the marker *)

(** C5. The icon and the colour of a marker depend on the type and the
    status of its alert only.  The icon of MEDICAL, POLICE and FIRE is the
    ambulance, the police car and the fire engine in every panel; the
    colour of PENDING, ASSIGNED and RESOLVED is the red, orange and green
    hex value in the Leaflet panel and the pending, assigned and resolved
    class pair in the Mapbox panels.  These are what the marker carries:
    the icon of the Leaflet marker of an alert is the custom icon of its
    type and status, whose HTML has the colour of the status as its
    background colour and contains the emoji of the type; the element of
    the Mapbox marker that the marker effect builds for an alert has the
    fixed classes followed by those of the status, and the emoji of the type
    as the content of its span.  Two alerts with the same type and status
    get the same icon and the same colour. *)
Theorem icon_and_colour_of_type_and_status :
  (Leaflet.getTypeIcon "MEDICAL" = "🚑" /\
   Leaflet.getTypeIcon "POLICE" = "🚔" /\
   Leaflet.getTypeIcon "FIRE" = "🚒") /\
  (Mapbox.getTypeIcon "MEDICAL" = "🚑" /\
   Mapbox.getTypeIcon "POLICE" = "🚔" /\
   Mapbox.getTypeIcon "FIRE" = "🚒") /\
  (Leaflet.getStatusColor "PENDING" = "#ef4444" /\
   Leaflet.getStatusColor "ASSIGNED" = "#f59e0b" /\
   Leaflet.getStatusColor "RESOLVED" = "#10b981") /\
  (Mapbox.getStatusColor "PENDING" = "border-pending bg-pending/20" /\
   Mapbox.getStatusColor "ASSIGNED" = "border-assigned bg-assigned/20" /\
   Mapbox.getStatusColor "RESOLVED" = "border-resolved bg-resolved/20") /\
  (forall a b : Alert,
      type a = type b -> status a = status b ->
      Leaflet.createCustomIcon (type a) (status a)
      = Leaflet.createCustomIcon (type b) (status b) /\
      Mapbox.className (Mapbox.markerElement a)
      = Mapbox.className (Mapbox.markerElement b) /\
      Mapbox.innerHTML (Mapbox.markerElement a)
      = Mapbox.innerHTML (Mapbox.markerElement b)) /\
  (forall (l : list Alert) (i : nat) (alert : Alert),
      nth_error l i = Some alert ->
      exists marker,
        nth_error (Leaflet.MapView_markers l) i = Some marker /\
        Leaflet.icon marker
        = Leaflet.createCustomIcon (type alert) (status alert) /\
        contains (Leaflet.html (Leaflet.icon marker))
                 ("background-color: "
                  ++ Leaflet.getStatusColor (status alert) ++ ";") /\
        contains (Leaflet.html (Leaflet.icon marker))
                 (Leaflet.getTypeIcon (type alert))) /\
  (forall (m : nat) (alert : Alert) (s : Mapbox.Comp),
      exists marker,
        nth_error (Mapbox.markerObjs (Mapbox.addMarker m alert s))
                  (length (Mapbox.markerObjs s)) = Some marker /\
        Mapbox.className (Mapbox.element marker)
        = "w-10 h-10 flex items-center justify-center rounded-full border-2 shadow-lg cursor-pointer hover:scale-110 transition-transform "
          ++ Mapbox.getStatusColor (status alert) /\
        Mapbox.innerHTML (Mapbox.element marker)
        = "<span class=" ++ dq ++ "text-lg" ++ dq ++ ">"
          ++ Mapbox.getTypeIcon (type alert) ++ "</span>").
Proof.
  split; [repeat split|]. split; [repeat split|].
  split; [repeat split|]. split; [repeat split|].
  split; [|split].
  - intros a b Ht Hs. split; [now rewrite Ht, Hs|]. split; cbn.
    + now rewrite Hs.
    + now rewrite Ht.
  - intros l i alert Hi. unfold Leaflet.MapView_markers.
    rewrite nth_error_map, Hi. eexists. split; [reflexivity|].
    cbn [Leaflet.icon]. split; [reflexivity|].
    unfold Leaflet.createCustomIcon. cbv zeta. cbn [Leaflet.html]. split.
    + match goal with
      | |- contains (?a ++ ?b ++ ?c ++ ?d ++ ?e ++ ?col ++ ?semi ++ ?rest) _ =>
        exists (a ++ b ++ c ++ d ++ "        "), (" " ++ rest)
      end.
      rewrite !string_app_assoc. reflexivity.
    + find_substring.
  - intros m alert s. rewrite Closed.addMarker_eq.
    cbn [Mapbox.markerObjs Mapbox.set_markers Mapbox.set_markerObjs].
    rewrite nth_error_app2, Nat.sub_diag by lia.
    eexists. split; [reflexivity|]. split; reflexivity.
Qed.

Lemma icon_and_colour_of_type_and_status_witness :
  (Leaflet.createCustomIcon (type sampleAlert) (status sampleAlert)
   = Leaflet.createCustomIcon (type otherAlert) (status otherAlert) /\
   Mapbox.className (Mapbox.markerElement sampleAlert)
   = Mapbox.className (Mapbox.markerElement otherAlert) /\
   Mapbox.innerHTML (Mapbox.markerElement sampleAlert)
   = Mapbox.innerHTML (Mapbox.markerElement otherAlert)) /\
  exists marker,
    nth_error (Leaflet.MapView_markers [sampleAlert; otherAlert]) 0
    = Some marker /\
    contains (Leaflet.html (Leaflet.icon marker))
             (Leaflet.getTypeIcon (type sampleAlert)).
Proof.
  destruct icon_and_colour_of_type_and_status
    as (_ & _ & _ & _ & Hsame & Hleaflet & _).
  split.
  - apply (Hsame sampleAlert otherAlert); reflexivity.
  - destruct (Hleaflet [sampleAlert; otherAlert] 0 sampleAlert eq_refl)
      as (marker & Hm & _ & _ & Hicon).
    exists marker. split; [exact Hm | exact Hicon].
Defined.

(** ** Out-of-enumeration tags *)

(** C9. The icon and colour functions are total on strings.  A type other
    than MEDICAL, POLICE and FIRE gets the siren; a status other than
    PENDING, ASSIGNED and RESOLVED gets the grey hex value in the Leaflet
    panel and the muted class pair in the Mapbox panels.  An alert with such
    tags still gets its marker: one Leaflet marker whose icon shows the siren
    on grey, and one Mapbox marker added to the collection with the siren in
    its element and the muted classes on it. *)
Theorem unknown_tags_fall_back (alert : Alert) (m : nat) (s : Mapbox.Comp) :
  (type alert <> "MEDICAL" -> type alert <> "POLICE" -> type alert <> "FIRE" ->
   Leaflet.getTypeIcon (type alert) = "🚨" /\
   Mapbox.getTypeIcon (type alert) = "🚨") /\
  (status alert <> "PENDING" -> status alert <> "ASSIGNED" ->
   status alert <> "RESOLVED" ->
   Leaflet.getStatusColor (status alert) = "#6b7280" /\
   Mapbox.getStatusColor (status alert) = "border-muted bg-muted/20") /\
  (type alert <> "MEDICAL" -> type alert <> "POLICE" -> type alert <> "FIRE" ->
   status alert <> "PENDING" -> status alert <> "ASSIGNED" ->
   status alert <> "RESOLVED" ->
   (exists marker,
       Leaflet.MapView_markers [alert] = [marker] /\
       Leaflet.icon marker = Leaflet.createCustomIcon "?" "?" /\
       contains (Leaflet.html (Leaflet.icon marker)) "🚨" /\
       contains (Leaflet.html (Leaflet.icon marker)) "#6b7280") /\
   (let s' := Mapbox.addMarker m alert s in
    Mapbox.markers_current s'
    = (Mapbox.markers_current s ++ [length (Mapbox.markerObjs s)])%list /\
    nth_error (Mapbox.markerObjs s') (length (Mapbox.markerObjs s))
    = Some (markerOf m alert) /\
    contains (Mapbox.innerHTML (Mapbox.markerElement alert)) "🚨" /\
    contains (Mapbox.className (Mapbox.markerElement alert))
             "border-muted bg-muted/20")).
Proof.
  split; [|split].
  - intros H1 H2 H3. split.
    + now apply leaflet_icon_default.
    + now apply mapbox_icon_default.
  - intros H1 H2 H3. split.
    + now apply leaflet_colour_default.
    + now apply mapbox_colour_default.
  - intros T1 T2 T3 S1 S2 S3. split.
    + eexists. split; [reflexivity|].
      cbn [Leaflet.icon]. unfold Leaflet.createCustomIcon. cbv zeta.
      cbn [Leaflet.html].
      rewrite (leaflet_icon_default T1 T2 T3), (leaflet_colour_default S1 S2 S3).
      split; [reflexivity|]. split; find_substring.
    + cbv zeta. rewrite Closed.addMarker_eq.
      cbn [Mapbox.markers_current Mapbox.markerObjs Mapbox.set_markers
           Mapbox.set_markerObjs].
      split; [reflexivity|]. split.
      * rewrite nth_error_app2, Nat.sub_diag by lia. reflexivity.
      * cbn [Mapbox.markerElement Mapbox.innerHTML Mapbox.className].
        rewrite (mapbox_icon_default T1 T2 T3), (mapbox_colour_default S1 S2 S3).
        split; find_substring.
Qed.

Lemma unknown_tags_fall_back_witness :
  (Leaflet.getTypeIcon (type unknownAlert) = "🚨" /\
   Mapbox.getTypeIcon (type unknownAlert) = "🚨") /\
  (Leaflet.getStatusColor (status unknownAlert) = "#6b7280" /\
   Mapbox.getStatusColor (status unknownAlert) = "border-muted bg-muted/20") /\
  Mapbox.markers_current (Mapbox.addMarker 0 unknownAlert (Mapbox.mount [])) = [0].
Proof.
  destruct (unknown_tags_fall_back unknownAlert 0 (Mapbox.mount []))
    as (Hicon & Hcolour & Hmarker).
  split; [apply Hicon; discriminate|].
  split; [apply Hcolour; discriminate|].
  apply Hmarker; discriminate.
Defined.

(** ** The token typed by the user *)

(** C10. In the panel with a typed token the map container is shown
    exactly when the token cell is not empty; a change of the input writes
    the typed value to the token cell as it is; the handler of the Load Map
    button returns the state it was given, as does a click on the button;
    and the first value typed, blank or not, is the access token of the map
    built from it: the token is not checked. *)
Theorem typed_token_is_used_unchecked (s : Mapbox.Comp) (value : string)
        (alerts : list Alert) :
  (ClientToken.render s = ClientToken.MapPanel <-> Mapbox.mapboxToken s <> "") /\
  Mapbox.mapboxToken (ClientToken.onChange value s) = value /\
  ClientToken.handleTokenSubmit s = s /\
  ClientToken.step ClientToken.Click s = s /\
  (value <> "" ->
   let s' := ClientToken.step (ClientToken.Change value) (Mapbox.mount alerts) in
   Mapbox.mapboxToken s' = value /\
   ClientToken.render s' = ClientToken.MapPanel /\
   Mapbox.accessToken s' = value /\
   Mapbox.map_current s' = Some 0 /\
   Mapbox.maps s' = [builtMap value]).
Proof.
  assert (Hsubmit : ClientToken.handleTokenSubmit s = s).
  { unfold ClientToken.handleTokenSubmit. now destruct (truthy _). }
  split; [|split; [|split; [|split]]].
  - unfold ClientToken.render.
    destruct (Mapbox.mapboxToken s); cbn; split; congruence.
  - apply Frame.changeToken_token.
  - exact Hsubmit.
  - cbn. destruct (ClientToken.render s); auto. now destruct (_ && _).
  - intros Hv. destruct value as [|c r]; [congruence|]. cbv zeta. cbn.
    repeat split.
Qed.

Lemma typed_token_is_used_unchecked_witness :
  let s' := ClientToken.step (ClientToken.Change " ") (Mapbox.mount [sampleAlert]) in
  Mapbox.mapboxToken s' = " " /\
  ClientToken.render s' = ClientToken.MapPanel /\
  Mapbox.accessToken s' = " " /\
  Mapbox.map_current s' = Some 0 /\
  Mapbox.maps s' = [builtMap " "].
Proof.
  apply (proj2 (proj2 (proj2 (proj2
           (typed_token_is_used_unchecked (Mapbox.mount []) " " [sampleAlert]))))).
  discriminate.
Defined.

(** ** The token fetched from the remote function *)

(** The request is made at mount and by no event. *)
Lemma server_step_invocations e s :
  ServerToken.invocations (ServerToken.step e s) = ServerToken.invocations s.
Proof.
  destruct e as [o|m|l|]; cbn; auto.
  unfold ServerToken.settle. destruct (ServerToken.pending s); auto.
  apply (Frame.forEach_keeps
           (fun st => ServerToken.invocations st = ServerToken.invocations s));
    auto.
  intros a st Hst. destruct a; cbn; auto;
    destruct (Mapbox.mounted (ServerToken.comp st)); auto.
Qed.

Lemma server_run_invocations events s :
  ServerToken.invocations (forEach events ServerToken.step s)
  = ServerToken.invocations s.
Proof.
  apply (Frame.forEach_keeps
           (fun st => ServerToken.invocations st = ServerToken.invocations s));
    auto.
  intros e st <-. apply server_step_invocations.
Qed.

(** A settled request stays settled and the error flag, once up, stays up. *)
Lemma server_step_settled e s :
  ServerToken.pending s = false ->
  ServerToken.pending (ServerToken.step e s) = false /\
  ServerToken.tokenError (ServerToken.step e s) = ServerToken.tokenError s.
Proof.
  intros Hp. destruct e as [o|m|l|]; cbn; auto.
  unfold ServerToken.settle. now rewrite Hp.
Qed.

Lemma server_run_settled events s :
  ServerToken.pending s = false ->
  ServerToken.pending (forEach events ServerToken.step s) = false /\
  ServerToken.tokenError (forEach events ServerToken.step s)
  = ServerToken.tokenError s.
Proof.
  intros Hp.
  apply (Frame.forEach_keeps
           (fun st => ServerToken.pending st = false /\
                      ServerToken.tokenError st = ServerToken.tokenError s));
    auto.
  intros e st [Hst <-]. now apply server_step_settled.
Qed.

(** The request settles once. *)
Lemma settle_settled o s : ServerToken.pending (ServerToken.settle o s) = false.
Proof.
  unfold ServerToken.settle. destruct (ServerToken.pending s) eqn:E; auto.
  apply (Frame.forEach_keeps (fun x => ServerToken.pending x = false)); auto.
  intros a x Hx. destruct a; cbn; auto;
    destruct (Mapbox.mounted (ServerToken.comp x)); auto.
Qed.

(** While the request is in flight the token cell is empty and the error
    flag is down. *)
Lemma server_pending_state alerts events :
  let s := ServerToken.run alerts events in
  ServerToken.pending s = true ->
  Mapbox.mapboxToken (ServerToken.comp s) = "" /\ ServerToken.tokenError s = false.
Proof.
  cbv zeta. unfold ServerToken.run.
  apply (Frame.forEach_keeps
           (fun st => ServerToken.pending st = true ->
                      Mapbox.mapboxToken (ServerToken.comp st) = "" /\
                      ServerToken.tokenError st = false)); [|cbn; auto].
  intros e st Hst Hp. destruct e as [o|m|l|]; cbn in *.
  - rewrite settle_settled in Hp. discriminate.
  - rewrite Frame.loadEvent_token. auto.
  - rewrite Frame.newProps_token. auto.
  - rewrite Frame.unmount_token. auto.
Qed.

(** C4. In the panel with a fetched token, when the request fails (the
    promise rejects or resolves with an error) while the component is
    mounted, the error flag is set and the panel shows the fixed error
    message and no map container.  The remote function is not called
    again: in every later state it has been called once, no request is in
    flight, and the error message is still shown. *)
Theorem failed_fetch_shows_error
        (alerts : list Alert) (events later : list ServerToken.Event)
        (o : ServerToken.Outcome) :
  let s := ServerToken.run alerts events in
  ServerToken.pending s = true ->
  Mapbox.mounted (ServerToken.comp s) = true ->
  failed o = true ->
  let s' := ServerToken.step (ServerToken.Settle o) s in
  let shown :=
    ServerToken.ErrorMessage
      "Mapbox token not configured. Please contact administrator." in
  (ServerToken.tokenError s' = true /\
   ServerToken.render s' = shown /\
   ServerToken.containerShown (ServerToken.render s') = false /\
   Mapbox.mapboxToken (ServerToken.comp s') = "" /\
   Mapbox.maps (ServerToken.comp s') = Mapbox.maps (ServerToken.comp s)) /\
  (let s'' :=
     ServerToken.run alerts (events ++ ServerToken.Settle o :: later)%list in
   ServerToken.invocations s'' = 1 /\
   ServerToken.pending s'' = false /\
   ServerToken.tokenError s'' = true /\
   ServerToken.render s'' = shown).
Proof.
  intros s Hp Hm Hf s' shown.
  destruct (server_pending_state alerts events Hp) as [Htok _].
  fold s in Htok.
  assert (Hs' : s' = {| ServerToken.comp :=
                          Mapbox.set_mapContainer false (ServerToken.comp s);
                        ServerToken.tokenError := true;
                        ServerToken.pending := false;
                        ServerToken.invocations := ServerToken.invocations s;
                        ServerToken.console := ServerToken.console s' |}).
  { unfold s'. cbn. unfold ServerToken.settle. rewrite Hp.
    destruct o as [reason|data [e|]]; try discriminate; cbn; rewrite Hm; reflexivity. }
  assert (Hfirst : ServerToken.tokenError s' = true /\
                   ServerToken.render s' = shown) by (rewrite Hs'; auto).
  split.
  - destruct Hfirst as [Ht Hr]. rewrite Hr. repeat split; auto.
    + rewrite Hs'. exact Htok.
    + rewrite Hs'. reflexivity.
  - cbv zeta. unfold ServerToken.run.
    rewrite Frame.forEach_app. cbn [forEach fold_left].
    change (fold_left (fun st x => ServerToken.step x st) later
              (ServerToken.step (ServerToken.Settle o)
                 (forEach events ServerToken.step (ServerToken.mount alerts))))
      with (forEach later ServerToken.step s').
    assert (Hp' : ServerToken.pending s' = false) by (rewrite Hs'; reflexivity).
    destruct (server_run_settled later _ Hp') as [Hp'' Ht''].
    destruct Hfirst as [Ht Hr].
    rewrite server_run_invocations. repeat split; auto.
    + unfold s'. rewrite server_step_invocations. unfold s, ServerToken.run.
      now rewrite server_run_invocations.
    + congruence.
    + unfold ServerToken.render. now rewrite Ht'', Ht.
Qed.

Lemma failed_fetch_shows_error_witness :
  let s' :=
    ServerToken.run [sampleAlert] [ServerToken.Settle (ServerToken.Rejected "offline")] in
  ServerToken.tokenError s' = true /\
  ServerToken.render s'
  = ServerToken.ErrorMessage
      "Mapbox token not configured. Please contact administrator." /\
  ServerToken.invocations
    (ServerToken.run [sampleAlert]
       [ServerToken.Settle (ServerToken.Rejected "offline");
        ServerToken.Props [otherAlert];
        ServerToken.Settle (ServerToken.Rejected "again")]) = 1.
Proof.
  destruct (@failed_fetch_shows_error [sampleAlert] []
              [ServerToken.Props [otherAlert];
               ServerToken.Settle (ServerToken.Rejected "again")]
              (ServerToken.Rejected "offline") eq_refl eq_refl eq_refl)
    as [(Ht & Hr & _) (Hi & _)].
  cbv zeta. split; [exact Ht | split; [exact Hr | exact Hi]].
Defined.

(** C6, as the spec has it, fails: a response that carries the empty
    string as its token has the shape [{ token: string }], yet the token
    setter is not called and the error flag is set. *)
Lemma empty_token_counts_as_missing :
  ~ (forall (o : ServerToken.Outcome) (t : string),
        failed o = false -> carried o = Some t ->
        ServerToken.fetchMapboxToken o = [ServerToken.SetMapboxToken t] /\
        ServerToken.tokenError
          (ServerToken.run [] [ServerToken.Settle o]) = false).
Proof.
  intros H.
  destruct (H (ServerToken.Resolved
                 (Some {| ServerToken.data_token := Some "" |}) None)
              "" eq_refl eq_refl) as [Hset _].
  discriminate Hset.
Qed.

(** C6, amended. When the request succeeds while the component is
    mounted, the token cell is set to the token of the response exactly when
    the response carries a token that is not the empty string, and the error
    flag stays down; when the response has no data, no token field or the
    empty string as token, the error flag is set instead and the token cell
    stays empty. *)
Theorem fetched_token_set_when_truthy
        (alerts : list Alert) (events : list ServerToken.Event)
        (o : ServerToken.Outcome) :
  let s := ServerToken.run alerts events in
  ServerToken.pending s = true ->
  Mapbox.mounted (ServerToken.comp s) = true ->
  failed o = false ->
  let s' := ServerToken.step (ServerToken.Settle o) s in
  (forall t, ServerToken.fetchMapboxToken o = [ServerToken.SetMapboxToken t]
             <-> carried o = Some t /\ t <> "") /\
  (forall t, carried o = Some t -> t <> "" ->
             Mapbox.mapboxToken (ServerToken.comp s') = t /\
             ServerToken.tokenError s' = false) /\
  (carried o = None \/ carried o = Some "" ->
   ServerToken.fetchMapboxToken o = [ServerToken.SetTokenError true] /\
   ServerToken.tokenError s' = true /\
   Mapbox.mapboxToken (ServerToken.comp s') = "").
Proof.
  intros s Hp Hm Hf s'.
  destruct (server_pending_state alerts events Hp) as [Htok Herr].
  fold s in Htok, Herr.
  destruct o as [reason|data [e|]]; try discriminate.
  unfold s'. cbn [ServerToken.step]. unfold ServerToken.settle. rewrite Hp.
  assert (Hnone :
            (forall t, [ServerToken.SetTokenError true]
                       = [ServerToken.SetMapboxToken t] <-> None = Some t /\ t <> "")
            /\ (forall t, [ServerToken.SetTokenError true]
                          = [ServerToken.SetMapboxToken t] <-> Some "" = Some t /\ t <> "")).
  { split; intros t; (split; [discriminate | intros [E Ht]; congruence]). }
  destruct Hnone as [Hnone Hempty].
  destruct data as [[[t0|]]|]; cbn [carried ServerToken.data_token].
  - destruct t0 as [|c r].
    + cbn. rewrite Hm. cbn. split; [exact Hempty|]. split.
      * intros t E Ht. congruence.
      * intros _. auto.
    + cbn - [Mapbox.changeToken]. rewrite Hm. cbn - [Mapbox.changeToken].
      split; [|split].
      * intros t. split.
        -- intros E. injection E as <-. split; [reflexivity | discriminate].
        -- intros [E _]. injection E as <-. reflexivity.
      * intros t E _. injection E as <-.
        split; [apply Frame.changeToken_token | exact Herr].
      * intros [E|E]; discriminate.
  - cbn. rewrite Hm. cbn. split; [exact Hnone|]. split.
    + intros t E. discriminate.
    + intros _. auto.
  - cbn. rewrite Hm. cbn. split; [exact Hnone|]. split.
    + intros t E. discriminate.
    + intros _. auto.
Qed.

Lemma fetched_token_set_when_truthy_witness :
  let s' :=
    ServerToken.run [sampleAlert]
      [ServerToken.Settle
         (ServerToken.Resolved
            (Some {| ServerToken.data_token := Some "pk.test" |}) None)] in
  Mapbox.mapboxToken (ServerToken.comp s') = "pk.test" /\
  ServerToken.tokenError s' = false.
Proof.
  apply (proj1 (proj2
           (@fetched_token_set_when_truthy [sampleAlert] []
              (ServerToken.Resolved
                 (Some {| ServerToken.data_token := Some "pk.test" |}) None)
              eq_refl eq_refl eq_refl)) "pk.test" eq_refl).
  discriminate.
Defined.

(** ** The marker effect on a loaded map *)

Lemma filter_none {A : Type} (p : A -> bool) (l : list A) :
  (forall i x, nth_error l i = Some x -> p x = false) -> filter p l = [].
Proof.
  induction l as [|x l IH]; intros H; [reflexivity|]. simpl.
  rewrite (H 0 x eq_refl). apply IH.
  intros i y Hy. apply (H (S i) y Hy).
Qed.

Lemma filter_all {A : Type} (p : A -> bool) (l : list A) :
  (forall x, In x l -> p x = true) -> filter p l = l.
Proof.
  induction l as [|x l IH]; intros H; [reflexivity|]. simpl.
  rewrite (H x (or_introl eq_refl)), IH; auto.
  intros y Hy. apply H. now right.
Qed.

Lemma nth_error_seq_lt (start len i : nat) :
  i < len -> nth_error (seq start len) i = Some (start + i).
Proof.
  revert start i; induction len as [|len IH]; intros start [|i] Hi; simpl;
    try lia.
  - now rewrite Nat.add_0_r.
  - rewrite IH by lia. f_equal. lia.
Qed.

(** In a reachable state with the loaded flag up there is a current map,
    and the component is mounted. *)
Lemma loaded_has_map s :
  Inv s -> Mapbox.isMapLoaded s = true ->
  exists m o, Mapbox.map_current s = Some m /\
              nth_error (Mapbox.maps s) m = Some o /\
              Mapbox.mounted s = true.
Proof.
  intros HI Hl. destruct (inv_loaded HI Hl) as (m & o & Hm & Ho & _ & _ & Hr).
  exists m, o. repeat split; auto.
  apply (inv_cleanup HI). apply (inv_live HI _ Ho Hr).
Qed.

(** New props on a loaded map: the collection, the marker heap and the map
    heap afterwards. *)
Lemma newProps_loaded s m l :
  Mapbox.mounted s = true -> Mapbox.map_current s = Some m ->
  Mapbox.isMapLoaded s = true ->
  let s' := Mapbox.newProps l s in
  Mapbox.markers_current s' = seq (length (Mapbox.markerObjs s)) (length l) /\
  Mapbox.markerObjs s'
  = (removeAll (Mapbox.markers_current s) (Mapbox.markerObjs s)
     ++ List.map (markerOf m) l)%list /\
  Mapbox.maps s'
  = (if (0 <? length l)%nat then
       upd (Mapbox.maps s) m
           (Mapbox.set_camera
              (Mapbox.fitBounds
                 (List.map (fun alert => (longitude alert, latitude alert)) l) 50))
     else Mapbox.maps s) /\
  Mapbox.markers_current s'
  = Mapbox.markers_current
      (forEach l (Mapbox.addMarker m) (cleared (Mapbox.set_alerts l s))) /\
  Mapbox.markerObjs s'
  = Mapbox.markerObjs
      (forEach l (Mapbox.addMarker m) (cleared (Mapbox.set_alerts l s))).
Proof.
  intros Hmt Hm Hl. cbv zeta. unfold Mapbox.newProps. rewrite Hmt.
  rewrite (@Closed.syncEffect_eq (Mapbox.set_alerts l s) m Hm Hl). cbv zeta.
  cbn [Mapbox.alerts Mapbox.set_alerts].
  rewrite !Closed.forEach_addMarker.
  destruct (0 <? length l)%nat; cbn - [removeAll]; rewrite length_removeAll;
    auto 6.
Qed.

Lemma popup_mentions_alert (alert : Alert) :
  contains (Mapbox.popupHTML (Mapbox.markerPopupOf alert)) (type alert) /\
  contains (Mapbox.popupHTML (Mapbox.markerPopupOf alert)) (sosId alert).
Proof.
  unfold Mapbox.markerPopupOf. cbn [Mapbox.popupHTML]. split; find_substring.
Qed.

(** C1, as the spec has it, fails for the Mapbox panels: alerts given to a
    panel whose map has not loaded get no marker. *)
Lemma no_marker_before_the_map_loads :
  ~ (forall (l : list Alert) (s : Mapbox.Comp),
        Reachable s -> Mapbox.mounted s = true ->
        length (Mapbox.markers_current (Mapbox.newProps l s)) = length l).
Proof.
  intros H.
  assert (R : Reachable (ClientToken.run [] [ClientToken.Change "pk.test"]))
    by (left; eexists _, _; reflexivity).
  specialize (H [sampleAlert] _ R eq_refl). vm_compute in H. discriminate H.
Qed.

(** ** The camera *)

(** C2, as the spec has it, fails for the Mapbox panels: an empty list
    given to a panel whose map was fitted to an alert leaves the map on that
    alert, not on the Delhi default. *)
Lemma empty_list_keeps_the_fitted_view :
  ~ (forall s : Mapbox.Comp,
        Reachable s -> Mapbox.isMapLoaded s = true ->
        forall m o,
          Mapbox.map_current (Mapbox.newProps [] s) = Some m ->
          nth_error (Mapbox.maps (Mapbox.newProps [] s)) m = Some o ->
          Mapbox.camera o = Mapbox.centerZoom Mapbox.Delhi 10%float).
Proof.
  intros H.
  pose (s := ClientToken.run [sampleAlert]
               [ClientToken.Change "pk.test"; ClientToken.Load 0]).
  assert (R : Reachable s) by (left; eexists _, _; reflexivity).
  assert (E : exists o,
             nth_error (Mapbox.maps (Mapbox.newProps [] s)) 0 = Some o /\
             Mapbox.camera o
             = Mapbox.fitBounds [(longitude sampleAlert, latitude sampleAlert)] 50).
  { eexists. split; vm_compute; reflexivity. }
  destruct E as (o & Eo & Ec).
  specialize (H s R eq_refl 0 o eq_refl Eo).
  rewrite Ec in H. discriminate H.
Qed.

(** C2, amended. In the Leaflet panel an empty list sets the view to the
    Delhi centre at zoom 10, and a list that is not empty fits the map to
    the bounds of all its coordinates, padded by 0.1.  In the Mapbox panels,
    once the map has loaded, a list that is not empty fits the current map
    to the bounds extended by the coordinates of every alert, with padding
    50, and an empty list leaves every map as it was. *)
Theorem camera_follows_alerts (l : list Alert) :
  Leaflet.FitBounds []
  = Leaflet.setView Leaflet.MapContainer_center Leaflet.MapContainer_zoom /\
  (l <> [] ->
   Leaflet.FitBounds l
   = Leaflet.fitBounds
       (Leaflet.pad
          (Leaflet.getBounds
             (List.map (fun alert => (latitude alert, longitude alert)) l))
          0.1%float)) /\
  (forall s, Reachable s -> Mapbox.isMapLoaded s = true ->
     exists m o,
       Mapbox.map_current s = Some m /\
       nth_error (Mapbox.maps s) m = Some o /\
       (l <> [] ->
        nth_error (Mapbox.maps (Mapbox.newProps l s)) m
        = Some (Mapbox.set_camera
                  (Mapbox.fitBounds
                     (List.map (fun alert => (longitude alert, latitude alert)) l)
                     50) o)) /\
       (l = [] -> Mapbox.maps (Mapbox.newProps l s) = Mapbox.maps s)).
Proof.
  split; [reflexivity|]. split.
  - intros Hne. destruct l as [|a l]; [congruence | reflexivity].
  - intros s R Hl. assert (HI := reachable_inv R).
    destruct (loaded_has_map HI Hl) as (m & o & Hm & Ho & Hmt).
    exists m, o. split; [exact Hm|]. split; [exact Ho|].
    destruct (@newProps_loaded s m l Hmt Hm Hl) as (_ & _ & Emaps & _).
    rewrite Emaps. split.
    + intros Hne. destruct l as [|a l]; [congruence|].
      cbn [length Nat.ltb Nat.leb]. now rewrite nth_error_upd_same, Ho.
    + intros ->. reflexivity.
Qed.

Lemma camera_follows_alerts_witness :
  let s := ClientToken.run [] [ClientToken.Change "pk.test"; ClientToken.Load 0] in
  exists m o,
    nth_error (Mapbox.maps s) m = Some o /\
    nth_error (Mapbox.maps (Mapbox.newProps [sampleAlert] s)) m
    = Some (Mapbox.set_camera
              (Mapbox.fitBounds [(longitude sampleAlert, latitude sampleAlert)] 50)
              o).
Proof.
  intros s.
  assert (R : Reachable s) by (left; eexists _, _; reflexivity).
  destruct (proj2 (proj2 (camera_follows_alerts [sampleAlert])) s R eq_refl)
    as (m & o & _ & Ho & Hfit & _).
  exists m, o. split; [exact Ho|]. apply Hfit. discriminate.
Defined.

(** ** Replacing the markers *)

(** C3. When the alert list changes in a panel whose map has loaded, the
    marker effect first takes every marker of the collection off its map and
    empties the collection, then adds the markers of the new list to that
    state.  Afterwards no reference of the old collection is in the new
    one and every old marker is off the map; the collection holds one
    reference per alert, without repetition, the i-th to the marker of the
    i-th alert; and no marker outside the collection is on any map. *)
Theorem sync_replaces_markers (s : Mapbox.Comp) (l : list Alert) :
  Reachable s -> Mapbox.isMapLoaded s = true ->
  let s' := Mapbox.newProps l s in
  exists m,
    Mapbox.map_current s = Some m /\
    (let mid :=
       Mapbox.set_markers []
         (forEach (Mapbox.markers_current s)
                  (fun marker => Mapbox.onMarker marker Mapbox.remove)
                  (Mapbox.set_alerts l s)) in
     Mapbox.markers_current mid = [] /\
     (forall ref o, nth_error (Mapbox.markerObjs mid) ref = Some o ->
                    Mapbox.onMap o = None) /\
     Mapbox.markers_current s'
     = Mapbox.markers_current (forEach l (Mapbox.addMarker m) mid) /\
     Mapbox.markerObjs s'
     = Mapbox.markerObjs (forEach l (Mapbox.addMarker m) mid)) /\
    (forall ref, In ref (Mapbox.markers_current s) ->
       ~ In ref (Mapbox.markers_current s') /\
       forall o, nth_error (Mapbox.markerObjs s') ref = Some o ->
                 Mapbox.onMap o = None) /\
    NoDup (Mapbox.markers_current s') /\
    length (Mapbox.markers_current s') = length l /\
    (forall i alert, nth_error l i = Some alert ->
       exists ref,
         nth_error (Mapbox.markers_current s') i = Some ref /\
         nth_error (Mapbox.markerObjs s') ref = Some (markerOf m alert)) /\
    (forall ref o, nth_error (Mapbox.markerObjs s') ref = Some o ->
                   Mapbox.onMap o <> None ->
                   In ref (Mapbox.markers_current s')).
Proof.
  intros R Hl s'. assert (HI := reachable_inv R).
  destruct (loaded_has_map HI Hl) as (m & o & Hm & Ho & Hmt).
  exists m. split; [exact Hm|].
  destruct (@newProps_loaded s m l Hmt Hm Hl) as (Emk & Eobj & _ & Emk' & Eobj').
  fold s' in Emk, Eobj, Emk', Eobj'.
  assert (Hoff := Invariant.cleared_off HI).
  split; [|split; [|split; [|split; [|split]]]].
  - cbv zeta. rewrite Closed.forEach_remove.
    change (Mapbox.set_markers [] _) with (cleared (Mapbox.set_alerts l s)).
    split; [reflexivity|]. split; [exact Hoff|]. split; assumption.
  - intros ref Hin. assert (Hb := inv_bound HI _ Hin). split.
    + rewrite Emk. intros Hin'. apply in_seq in Hin'. lia.
    + intros o' Ho'. rewrite Eobj in Ho'.
      rewrite nth_error_app1 in Ho' by now rewrite length_removeAll.
      exact (Hoff _ _ Ho').
  - rewrite Emk. apply seq_NoDup.
  - rewrite Emk. apply length_seq.
  - intros i alert Hi.
    assert (Hlt : i < length l) by (apply nth_error_Some; congruence).
    exists (length (Mapbox.markerObjs s) + i).
    rewrite Emk, Eobj. split; [now apply nth_error_seq_lt|].
    rewrite nth_error_app2 by (rewrite length_removeAll; lia).
    rewrite length_removeAll.
    replace (length (Mapbox.markerObjs s) + i - length (Mapbox.markerObjs s))
      with i by lia.
    now rewrite nth_error_map, Hi.
  - apply (inv_tracked (Invariant.newProps_inv l HI)).
Qed.

Lemma sync_replaces_markers_witness :
  let s := ClientToken.run [sampleAlert]
             [ClientToken.Change "pk.test"; ClientToken.Load 0] in
  let s' := Mapbox.newProps [otherAlert] s in
  Mapbox.markers_current s = [0] /\
  NoDup (Mapbox.markers_current s') /\
  length (Mapbox.markers_current s') = 1 /\
  ~ In 0 (Mapbox.markers_current s').
Proof.
  intros s s'.
  assert (R : Reachable s) by (left; eexists _, _; reflexivity).
  destruct (@sync_replaces_markers s [otherAlert] R eq_refl)
    as (m & _ & _ & Hold & Hnodup & Hlen & _).
  split; [vm_compute; reflexivity|]. split; [exact Hnodup|]. split; [exact Hlen|].
  apply (Hold 0). vm_compute. left. reflexivity.
Defined.

(** ** The loaded flag *)

Lemma loadEvent_raises m s :
  Inv s -> Mapbox.isMapLoaded s = false ->
  Mapbox.isMapLoaded (Mapbox.loadEvent m s) = true ->
  exists o, Mapbox.map_current s = Some m /\
            nth_error (Mapbox.maps s) m = Some o /\
            Mapbox.loadListener o = true /\ Mapbox.loadFired o = false.
Proof.
  intros HI Hl. unfold Mapbox.loadEvent.
  destruct (nth_error (Mapbox.maps s) m) as [o|] eqn:Eo; [|congruence].
  destruct (Mapbox.mounted s && Mapbox.loadListener o
            && negb (Mapbox.loadFired o) && negb (Mapbox.removed o)) eqn:Eg;
    [|congruence].
  intros _.
  apply andb_prop in Eg as [Eg Hr]. apply andb_prop in Eg as [Eg Hf].
  apply andb_prop in Eg as [_ Hls].
  apply negb_true_iff in Hr, Hf.
  destruct (inv_live HI _ Eo Hr) as [Hcur _].
  exists o. auto.
Qed.

Lemma newProps_flag l s :
  Mapbox.isMapLoaded (Mapbox.newProps l s) = Mapbox.isMapLoaded s.
Proof.
  unfold Mapbox.newProps. destruct (Mapbox.mounted s); auto.
  now destruct (Frame.syncEffect_frame (Mapbox.set_alerts l s))
    as (_ & _ & -> & _).
Qed.

Lemma unmount_flag s :
  Mapbox.isMapLoaded (Mapbox.unmount s) = true -> Mapbox.isMapLoaded s = true.
Proof.
  unfold Mapbox.unmount. destruct (Mapbox.mounted s); auto.
  destruct (Mapbox.cleanup s); auto.
  rewrite Closed.cleanupEffect_eq. cbn. discriminate.
Qed.

Lemma server_perform_flag a st :
  Mapbox.isMapLoaded (ServerToken.comp (ServerToken.perform a st)) = true ->
  Mapbox.isMapLoaded (ServerToken.comp st) = true.
Proof.
  destruct a as [v|v|label error]; cbn - [Mapbox.changeToken]; auto.
  apply Frame.changeToken_loaded.
Qed.

Lemma settle_flag o st :
  Mapbox.isMapLoaded (ServerToken.comp (ServerToken.settle o st)) = true ->
  Mapbox.isMapLoaded (ServerToken.comp st) = true.
Proof.
  unfold ServerToken.settle. destruct (ServerToken.pending st); auto.
  apply (Frame.forEach_keeps
           (fun x => Mapbox.isMapLoaded (ServerToken.comp x) = true ->
                     Mapbox.isMapLoaded (ServerToken.comp st) = true)); auto.
  intros a x Hx. destruct a;
    try destruct (Mapbox.mounted (ServerToken.comp x)); auto;
    intros H; apply Hx; revert H; apply server_perform_flag.
Qed.

(** C7. The map effect does nothing unless the container is attached and
    the token is not empty.  When both hold it sets the access token,
    builds one map with the Delhi centre and zoom 10, adds the navigation
    control at the top right, registers the load listener, and leaves the
    loaded flag as it was.  In every reachable state the loaded flag is up
    only if the current map exists, has its listener and has fired [load];
    and the only event that raises the flag, in either Mapbox panel, is the
    [load] event of the current map, which the map effect built before. *)
Theorem loaded_only_after_load_event (s : Mapbox.Comp) :
  (Mapbox.initEffect s <> s ->
   Mapbox.mapContainer_current s = true /\ Mapbox.mapboxToken s <> "") /\
  (Mapbox.mapContainer_current s = true -> Mapbox.mapboxToken s <> "" ->
   let s' := Mapbox.initEffect s in
   Mapbox.accessToken s' = Mapbox.mapboxToken s /\
   Mapbox.map_current s' = Some (length (Mapbox.maps s)) /\
   Mapbox.maps s' = (Mapbox.maps s ++ [builtMap (Mapbox.mapboxToken s)])%list /\
   Mapbox.isMapLoaded s' = Mapbox.isMapLoaded s) /\
  (Reachable s ->
   (Mapbox.isMapLoaded s = true ->
    exists m o, Mapbox.map_current s = Some m /\
                nth_error (Mapbox.maps s) m = Some o /\
                Mapbox.loadListener o = true /\ Mapbox.loadFired o = true) /\
   (Mapbox.isMapLoaded s = false ->
    (forall e, Mapbox.isMapLoaded (ClientToken.step e s) = true ->
       exists m o, e = ClientToken.Load m /\
                   Mapbox.map_current s = Some m /\
                   nth_error (Mapbox.maps s) m = Some o /\
                   Mapbox.loadListener o = true /\ Mapbox.loadFired o = false) /\
    (forall e st, ServerToken.comp st = s ->
       Mapbox.isMapLoaded (ServerToken.comp (ServerToken.step e st)) = true ->
       exists m o, e = ServerToken.Load m /\
                   Mapbox.map_current s = Some m /\
                   nth_error (Mapbox.maps s) m = Some o /\
                   Mapbox.loadListener o = true /\ Mapbox.loadFired o = false))).
Proof.
  split; [|split].
  - intros Hrun.
    destruct (Mapbox.mapContainer_current s) eqn:Ec;
      [|destruct Hrun; apply Invariant.initEffect_idle; auto].
    destruct (string_dec (Mapbox.mapboxToken s) "") as [Et|Et];
      [destruct Hrun; apply Invariant.initEffect_idle; auto | auto].
  - intros Hc Ht. cbv zeta. rewrite (Invariant.initEffect_eq _ Hc Ht). cbn. auto.
  - intros R. assert (HI := reachable_inv R). split.
    + intros Hl. destruct (inv_loaded HI Hl) as (m & o & Hm & Ho & Hls & Hlf & _).
      exists m, o. auto.
    + intros Hl. split.
      * intros e He. destruct e as [v| |m|l|]; cbn in He.
        -- destruct (ClientToken.render s);
             [destruct (Mapbox.mounted s)|]; try congruence.
           apply Frame.changeToken_loaded in He. congruence.
        -- destruct (ClientToken.render s); try congruence.
           unfold ClientToken.handleTokenSubmit in He.
           destruct (_ && _); try congruence.
           destruct (truthy _); congruence.
        -- destruct (loadEvent_raises m HI Hl He) as (o & H). exists m, o. auto.
        -- rewrite newProps_flag in He. congruence.
        -- apply unmount_flag in He. congruence.
      * intros e st <- He. destruct e as [o|m|l|]; cbn in He.
        -- apply settle_flag in He. congruence.
        -- destruct (loadEvent_raises m HI Hl He) as (o & H). exists m, o. auto.
        -- rewrite newProps_flag in He. congruence.
        -- apply unmount_flag in He. congruence.
Qed.

Lemma loaded_only_after_load_event_witness :
  let s := ClientToken.run [sampleAlert] [ClientToken.Change "pk.test"] in
  (Mapbox.isMapLoaded s = false /\
   Mapbox.isMapLoaded (ClientToken.step (ClientToken.Load 0) s) = true) /\
  exists m o, ClientToken.Load 0 = ClientToken.Load m /\
              Mapbox.map_current s = Some m /\
              nth_error (Mapbox.maps s) m = Some o /\
              Mapbox.loadListener o = true /\ Mapbox.loadFired o = false.
Proof.
  intros s.
  assert (R : Reachable s) by (left; eexists _, _; reflexivity).
  assert (Hl : Mapbox.isMapLoaded s = false) by (vm_compute; reflexivity).
  assert (He : Mapbox.isMapLoaded (ClientToken.step (ClientToken.Load 0) s) = true)
    by (vm_compute; reflexivity).
  split; [split; assumption|].
  exact (proj1 (proj2 (proj2 (proj2 (loaded_only_after_load_event s)) R) Hl)
           (ClientToken.Load 0) He).
Defined.

(** ** Unmount *)

(** C8. The cleanup of the map effect takes every marker of the
    collection off its map, empties the collection, removes the current map
    and lowers the loaded flag.  After the unmount of a mounted panel, in
    whatever state it was, the collection is empty, no marker is on a map,
    every map that was built has been removed and the loaded flag is
    down. *)
Theorem unmount_releases_everything (s : Mapbox.Comp) :
  (let s' := Mapbox.cleanupEffect s in
   Mapbox.markers_current s' = [] /\
   Mapbox.isMapLoaded s' = false /\
   (forall ref o, In ref (Mapbox.markers_current s) ->
                  nth_error (Mapbox.markerObjs s') ref = Some o ->
                  Mapbox.onMap o = None) /\
   (forall m o, Mapbox.map_current s = Some m ->
                nth_error (Mapbox.maps s') m = Some o ->
                Mapbox.removed o = true)) /\
  (Reachable s -> Mapbox.mounted s = true ->
   let s' := Mapbox.unmount s in
   Mapbox.markers_current s' = [] /\
   (forall ref o, nth_error (Mapbox.markerObjs s') ref = Some o ->
                  Mapbox.onMap o = None) /\
   (forall m o, nth_error (Mapbox.maps s') m = Some o ->
                Mapbox.removed o = true) /\
   Mapbox.isMapLoaded s' = false /\
   Mapbox.mounted s' = false /\
   Mapbox.cleanup s' = false).
Proof.
  split.
  - cbv zeta. rewrite Closed.cleanupEffect_eq.
    destruct (Mapbox.map_current s) as [m0|] eqn:Em; cbn - [removeAll];
      (split; [reflexivity|]; split; [reflexivity|]; split).
    + intros ref o Hin Ho. now apply (removeAll_off _ _ _ Ho).
    + intros m o E Ho. injection E as <-.
      rewrite nth_error_upd_same in Ho.
      destruct (nth_error (Mapbox.maps s) m0); [|discriminate].
      now injection Ho as <-.
    + intros ref o Hin Ho. now apply (removeAll_off _ _ _ Ho).
    + discriminate.
  - intros R Hm. cbv zeta.
    destruct (Invariant.unmount_quiet (reachable_inv R) Hm)
      as [[Hoff Hmk Hmaps Hl] Hc].
    repeat split; auto.
    unfold Mapbox.unmount. now rewrite Hm.
Qed.

Lemma unmount_releases_everything_witness :
  let s := ClientToken.run [sampleAlert; otherAlert]
             [ClientToken.Change "pk.test"; ClientToken.Load 0] in
  (length (Mapbox.markers_current s) = 2 /\ Mapbox.isMapLoaded s = true) /\
  Mapbox.markers_current (Mapbox.unmount s) = [] /\
  Mapbox.isMapLoaded (Mapbox.unmount s) = false /\
  forall m o, nth_error (Mapbox.maps (Mapbox.unmount s)) m = Some o ->
              Mapbox.removed o = true.
Proof.
  intros s.
  assert (R : Reachable s) by (left; eexists _, _; reflexivity).
  destruct (proj2 (unmount_releases_everything s) R eq_refl)
    as (Hmk & _ & Hmaps & Hl & _).
  split; [split; vm_compute; reflexivity|].
  split; [exact Hmk | split; [exact Hl | exact Hmaps]].
Defined.

(** * Further properties of the code *)

(** ** The Leaflet panel *)

(** X1. In the Leaflet panel the bounds the map is fitted to are built
    from exactly the positions of the markers the panel renders, in the
    same order. *)
Theorem leaflet_bounds_cover_markers (l : list Alert) :
  l <> [] ->
  Leaflet.FitBounds l
  = Leaflet.fitBounds
      (Leaflet.pad
         (Leaflet.getBounds
            (List.map Leaflet.position (Leaflet.MapView_markers l)))
         0.1%float).
Proof.
  intros Hne. destruct l as [|a l]; [congruence|].
  unfold Leaflet.FitBounds, Leaflet.MapView_markers.
  cbn [length Nat.ltb Nat.leb]. rewrite map_map. reflexivity.
Qed.

Lemma leaflet_bounds_cover_markers_witness :
  Leaflet.FitBounds [sampleAlert; otherAlert]
  = Leaflet.fitBounds
      (Leaflet.pad
         (Leaflet.getBounds
            (List.map Leaflet.position
                      (Leaflet.MapView_markers [sampleAlert; otherAlert])))
         0.1%float).
Proof.
  apply (@leaflet_bounds_cover_markers [sampleAlert; otherAlert]). discriminate.
Defined.

(** X2. Every marker of the Leaflet panel has the identifier of its alert
    as key and the custom icon of its alert: the icon has the class
    custom-marker, its HTML contains the colour of the status and the emoji
    of the type, whatever these strings are; and the popup text contains the
    status. *)
Theorem leaflet_marker_shows_alert (l : list Alert) (i : nat) (alert : Alert) :
  nth_error l i = Some alert ->
  exists marker,
    nth_error (Leaflet.MapView_markers l) i = Some marker /\
    Leaflet.key marker = id alert /\
    Leaflet.className (Leaflet.icon marker) = "custom-marker" /\
    contains (Leaflet.html (Leaflet.icon marker))
             (Leaflet.getStatusColor (status alert)) /\
    contains (Leaflet.html (Leaflet.icon marker))
             (Leaflet.getTypeIcon (type alert)) /\
    contains (Leaflet.popupText (Leaflet.popup marker)) (status alert).
Proof.
  intros Hi. unfold Leaflet.MapView_markers. rewrite nth_error_map, Hi.
  eexists. split; [reflexivity|].
  cbn [Leaflet.key Leaflet.icon Leaflet.popup].
  split; [reflexivity|]. split; [reflexivity|].
  unfold Leaflet.createCustomIcon, Leaflet.popupText. cbv zeta.
  cbn [Leaflet.html String.concat Leaflet.heading Leaflet.sosLine
       Leaflet.statusLine app].
  repeat split; find_substring.
Qed.

Lemma leaflet_marker_shows_alert_witness :
  exists marker,
    nth_error (Leaflet.MapView_markers [sampleAlert; unknownAlert]) 1
    = Some marker /\
    Leaflet.key marker = "a3" /\
    contains (Leaflet.html (Leaflet.icon marker)) "#6b7280".
Proof.
  destruct (@leaflet_marker_shows_alert [sampleAlert; unknownAlert] 1
              unknownAlert eq_refl)
    as (marker & Hm & Hk & _ & Hc & _).
  exists marker. split; [exact Hm | split; [exact Hk | exact Hc]].
Defined.

(** ** Icons and colours, read backwards *)

(** Decide the string tests of a [switch]. *)
Ltac by_cases_on_tag :=
  repeat match goal with
         | |- context [String.eqb ?a ?b] => destruct (String.eqb_spec a b)
         end.

(** X3. The icon tells the type: the Leaflet and the Mapbox function agree
    on every string, each of the three emoji is returned for its own tag
    only, and the siren is returned exactly for the strings outside the
    enumeration. *)
Theorem icon_identifies_type (t : string) :
  Leaflet.getTypeIcon t = Mapbox.getTypeIcon t /\
  (Mapbox.getTypeIcon t = "🚑" <-> t = "MEDICAL") /\
  (Mapbox.getTypeIcon t = "🚔" <-> t = "POLICE") /\
  (Mapbox.getTypeIcon t = "🚒" <-> t = "FIRE") /\
  (Mapbox.getTypeIcon t = "🚨" <->
   t <> "MEDICAL" /\ t <> "POLICE" /\ t <> "FIRE").
Proof.
  split; [reflexivity|]. unfold Mapbox.getTypeIcon.
  by_cases_on_tag; subst; repeat split; intros;
    try congruence; try discriminate; try tauto.
Qed.

(** X4. The colour tells the status: in the Leaflet panel each of the
    three hex values, and in the Mapbox panels each of the three class
    pairs, is returned for its own tag only, and the grey value and the
    muted pair exactly for the strings outside the enumeration; so two
    statuses get the same Leaflet colour exactly when they get the same
    Mapbox classes. *)
Theorem colour_identifies_status (u v : string) :
  ((Leaflet.getStatusColor u = "#ef4444" <-> u = "PENDING") /\
   (Leaflet.getStatusColor u = "#f59e0b" <-> u = "ASSIGNED") /\
   (Leaflet.getStatusColor u = "#10b981" <-> u = "RESOLVED") /\
   (Leaflet.getStatusColor u = "#6b7280" <->
    u <> "PENDING" /\ u <> "ASSIGNED" /\ u <> "RESOLVED")) /\
  ((Mapbox.getStatusColor u = "border-pending bg-pending/20" <-> u = "PENDING") /\
   (Mapbox.getStatusColor u = "border-assigned bg-assigned/20"
    <-> u = "ASSIGNED") /\
   (Mapbox.getStatusColor u = "border-resolved bg-resolved/20"
    <-> u = "RESOLVED") /\
   (Mapbox.getStatusColor u = "border-muted bg-muted/20" <->
    u <> "PENDING" /\ u <> "ASSIGNED" /\ u <> "RESOLVED")) /\
  (Leaflet.getStatusColor u = Leaflet.getStatusColor v <->
   Mapbox.getStatusColor u = Mapbox.getStatusColor v).
Proof.
  unfold Leaflet.getStatusColor, Mapbox.getStatusColor.
  by_cases_on_tag; subst; repeat split; intros;
    try congruence; try discriminate; try tauto.
Qed.

(** ** The form of the typed token *)

(** X5. Whenever the panel with a typed token shows its form, the input
    is empty and the Load Map button is disabled: the form is shown only
    while the token cell is empty, and the button is disabled while the
    trimmed token is empty.  So a click never calls [handleTokenSubmit]. *)
Theorem load_button_is_always_disabled
        (s : Mapbox.Comp) (value : string) (disabled : bool) :
  ClientToken.render s = ClientToken.TokenForm value disabled ->
  value = "" /\ disabled = true /\
  Mapbox.mounted s && negb disabled = false.
Proof.
  unfold ClientToken.render.
  destruct (Mapbox.mapboxToken s) as [|c r] eqn:E; cbn; [|discriminate].
  intros H. injection H as <- <-. rewrite andb_false_r. auto.
Qed.

Lemma load_button_is_always_disabled_witness :
  ClientToken.render (Mapbox.mount [sampleAlert]) = ClientToken.TokenForm "" true /\
  Mapbox.mounted (Mapbox.mount [sampleAlert]) && negb true = false.
Proof.
  split; [reflexivity|].
  apply (@load_button_is_always_disabled (Mapbox.mount [sampleAlert]) "" true).
  reflexivity.
Defined.

(** ** The token effect *)

(** X6. Whatever the remote call answers, the token effect calls exactly
    one state setter.  It sets the error flag to true only, never to false;
    it sets the token only to a string that is not empty and that the
    response carried; and it writes to the console exactly when the call
    failed, so a response without a usable token raises the error flag
    without a log entry. *)
Theorem token_effect_actions (o : ServerToken.Outcome) :
  let actions := ServerToken.fetchMapboxToken o in
  length (filter isSetter actions) = 1 /\
  (forall v, In (ServerToken.SetTokenError v) actions -> v = true) /\
  (forall t, In (ServerToken.SetMapboxToken t) actions ->
             t <> "" /\ carried o = Some t /\ failed o = false) /\
  existsb isLog actions = failed o.
Proof.
  destruct o as [reason|[[[[|c r]|]]|] [e|]]; cbn;
    (split; [reflexivity|]); (split; [|split; [|reflexivity]]);
    intros x Hx;
    repeat match goal with
           | H : _ \/ _ |- _ => destruct H
           | H : False |- _ => destruct H
           end;
    try discriminate;
    try match goal with
        | H : ServerToken.SetTokenError _ = ServerToken.SetTokenError _ |- _ =>
          injection H as <-; reflexivity
        | H : ServerToken.SetMapboxToken _ = ServerToken.SetMapboxToken _ |- _ =>
          injection H as <-; repeat split; discriminate
        end.
Qed.

Lemma token_effect_actions_witness :
  let o := ServerToken.Resolved
             (Some {| ServerToken.data_token := Some "pk.test" |}) None in
  "pk.test" <> "" /\ carried o = Some "pk.test" /\ failed o = false.
Proof.
  intros o.
  apply (proj1 (proj2 (proj2 (token_effect_actions o))) "pk.test").
  left. reflexivity.
Defined.

(** X7. The error flag of the panel with a fetched token is never
    lowered: no event takes a state with the flag up to a state with the
    flag down. *)
Theorem token_error_is_never_cleared
        (e : ServerToken.Event) (st : ServerToken.State) :
  ServerToken.tokenError st = true ->
  ServerToken.tokenError (ServerToken.step e st) = true.
Proof.
  intros Ht. destruct e as [o|m|l|]; cbn; auto.
  unfold ServerToken.settle. destruct (ServerToken.pending st); auto.
  destruct o as [reason|[[[[|c r]|]]|] [e|]]; cbn - [Mapbox.changeToken];
    destruct (Mapbox.mounted (ServerToken.comp st)); cbn - [Mapbox.changeToken];
    auto.
Qed.

(** ** What the map shows *)

(** The marker effect when its guard lets it run, on any state. *)
Lemma syncEffect_loaded s m :
  Mapbox.map_current s = Some m -> Mapbox.isMapLoaded s = true ->
  let s' := Mapbox.syncEffect s in
  Mapbox.markers_current s'
  = seq (length (Mapbox.markerObjs s)) (length (Mapbox.alerts s)) /\
  Mapbox.markerObjs s'
  = (removeAll (Mapbox.markers_current s) (Mapbox.markerObjs s)
     ++ List.map (markerOf m) (Mapbox.alerts s))%list /\
  Mapbox.maps s'
  = (if (0 <? length (Mapbox.alerts s))%nat then
       upd (Mapbox.maps s) m
           (Mapbox.set_camera
              (Mapbox.fitBounds (List.map lngLatOf (Mapbox.alerts s)) 50))
     else Mapbox.maps s).
Proof.
  intros Hm Hl. cbv zeta.
  rewrite (@Closed.syncEffect_eq s m Hm Hl). cbv zeta.
  rewrite !Closed.forEach_addMarker.
  destruct (0 <? length (Mapbox.alerts s))%nat; cbn - [removeAll];
    rewrite length_removeAll; auto.
Qed.

(** After the collection is cleared and the markers of [l] are added, the
    markers on the map [m] are those of [l]. *)
Lemma shown_after_sync s m l :
  Inv s ->
  filter (fun o => match Mapbox.onMap o with
                   | Some m' => (m' =? m)%nat
                   | None => false
                   end)
         (removeAll (Mapbox.markers_current s) (Mapbox.markerObjs s)
          ++ List.map (markerOf m) l)%list
  = List.map (markerOf m) l.
Proof.
  intros HI. rewrite filter_app, filter_none, filter_all; [reflexivity| |].
  - intros x Hx. apply in_map_iff in Hx as (alert & <- & _). cbn.
    apply Nat.eqb_refl.
  - intros i x Hx. now rewrite (Invariant.cleared_off HI _ Hx).
Qed.

Lemma display_same s s' :
  Mapbox.alerts s' = Mapbox.alerts s ->
  Mapbox.markerObjs s' = Mapbox.markerObjs s ->
  Mapbox.markers_current s' = Mapbox.markers_current s ->
  Mapbox.maps s' = Mapbox.maps s ->
  Mapbox.map_current s' = Mapbox.map_current s ->
  Mapbox.isMapLoaded s' = Mapbox.isMapLoaded s ->
  Display s -> Display s'.
Proof.
  intros E1 E2 E3 E4 E5 E6 [Hidle Hloaded].
  constructor; unfold Mapbox.shownOn in *;
    rewrite ?E1, ?E2, ?E3, ?E4, ?E5, ?E6; auto.
Qed.

Lemma quiet_display s : Quiet s -> Display s.
Proof.
  intros [Hoff Hmk Hmaps Hl]. constructor; [auto | congruence].
Qed.

Lemma syncEffect_display s :
  Inv s ->
  (Mapbox.isMapLoaded s = false ->
   Mapbox.markers_current s = [] /\
   forall i o, nth_error (Mapbox.markerObjs s) i = Some o ->
               Mapbox.onMap o = None) ->
  Display (Mapbox.syncEffect s).
Proof.
  intros HI Hidle.
  destruct (Mapbox.isMapLoaded s) eqn:El.
  - destruct (inv_loaded HI El) as (m & o & Hm & Ho & _).
    destruct (@syncEffect_loaded s m Hm El) as (Emk & Eobj & Emaps).
    destruct (Frame.syncEffect_frame s) as (Ea & _ & Elo & _ & Emc & _).
    constructor; [congruence|]. intros _.
    assert (Hshown : Mapbox.shownOn m (Mapbox.syncEffect s)
                     = List.map (markerOf m) (Mapbox.alerts s)).
    { unfold Mapbox.shownOn. rewrite Eobj. now apply shown_after_sync. }
    rewrite Ea, Emc, Emk, Emaps, length_seq.
    destruct (0 <? length (Mapbox.alerts s))%nat eqn:En.
    + exists m, (Mapbox.set_camera
                   (Mapbox.fitBounds (List.map lngLatOf (Mapbox.alerts s)) 50) o).
      rewrite nth_error_upd_same, Ho, Hshown. repeat split; auto.
    + exists m, o. rewrite Hshown. repeat split; auto.
      intros Hne. apply Nat.ltb_ge in En.
      destruct (Mapbox.alerts s); [congruence | cbn in En; lia].
  - rewrite Closed.syncEffect_idle by auto.
    constructor; [auto | congruence].
Qed.

(** The [load] event on a state of the invariant. *)
Lemma fired_inv m o s :
  Inv s -> nth_error (Mapbox.maps s) m = Some o ->
  Mapbox.loadListener o = true -> Mapbox.removed o = false ->
  Inv (Mapbox.setIsMapLoaded true (Mapbox.onMapObj m Mapbox.fire_load s)).
Proof.
  intros HI Eo Hls Hr. destruct (inv_live HI _ Eo Hr) as [Hcur Hcl].
  destruct HI as [H1 H2 H3 H4 H5 H6]. constructor; cbn; auto.
  - intros j o' Ho' Hr'. destruct (Nat.eq_dec m j) as [->|Hmj]; auto.
    rewrite nth_error_upd_other in Ho' by assumption. eauto.
  - intros _. exists m, (Mapbox.fire_load o).
    rewrite nth_error_upd_same, Eo. auto.
Qed.

(** On a state of the invariant with the flag up, no [load] event is
    left to fire. *)
Lemma loadEvent_when_loaded m s :
  Inv s -> Mapbox.isMapLoaded s = true -> Mapbox.loadEvent m s = s.
Proof.
  intros HI Hl. unfold Mapbox.loadEvent.
  destruct (nth_error (Mapbox.maps s) m) as [o|] eqn:Eo; auto.
  destruct (Mapbox.removed o) eqn:Hr; [now rewrite andb_false_r|].
  destruct (inv_loaded HI Hl) as (m0 & o0 & Hm0 & Ho0 & _ & Hf0 & _).
  destruct (inv_live HI _ Eo Hr) as [Hcur _].
  assert (m0 = m) by congruence. subst m0.
  assert (o0 = o) by congruence. subst o0.
  rewrite Hf0. cbn. now rewrite andb_false_r.
Qed.

Lemma loadEvent_display m s :
  Inv s -> Display s -> Display (Mapbox.loadEvent m s).
Proof.
  intros HI HD.
  destruct (Mapbox.isMapLoaded s) eqn:El;
    [now rewrite loadEvent_when_loaded|].
  unfold Mapbox.loadEvent.
  destruct (nth_error (Mapbox.maps s) m) as [o|] eqn:Eo; auto.
  destruct (Mapbox.mounted s && Mapbox.loadListener o
            && negb (Mapbox.loadFired o) && negb (Mapbox.removed o)) eqn:Eg;
    auto.
  apply andb_prop in Eg as [Eg Hr]. apply andb_prop in Eg as [Eg _].
  apply andb_prop in Eg as [_ Hls]. apply negb_true_iff in Hr.
  rewrite El. apply syncEffect_display.
  - now apply (fired_inv m HI Eo).
  - cbn. discriminate.
Qed.

Lemma newProps_display l s :
  Inv s -> Display s -> Display (Mapbox.newProps l s).
Proof.
  intros HI HD. unfold Mapbox.newProps. destruct (Mapbox.mounted s); auto.
  apply syncEffect_display.
  - eapply Invariant.inv_same with (s := s); auto.
  - cbn. exact (display_idle HD).
Qed.

Lemma changeToken_display v c s :
  Inv s -> Display s -> Display (Mapbox.changeToken v c s).
Proof.
  intros HI HD. unfold Mapbox.changeToken.
  destruct (Mapbox.mapboxToken s =? v); auto.
  set (s1 := Mapbox.set_mapContainer c (Mapbox.setMapboxToken v s)).
  assert (HI1 : Inv s1) by (eapply Invariant.inv_same with (s := s); auto).
  set (s2 := if Mapbox.cleanup s1 then Mapbox.cleanupEffect s1 else s1).
  assert (HQ : Quiet s2).
  { unfold s2. destruct (Mapbox.cleanup s1) eqn:E.
    - now apply Invariant.cleanupEffect_quiet.
    - now apply Invariant.idle_quiet. }
  set (s3 := Mapbox.initEffect (Mapbox.set_cleanup false s2)).
  destruct (Frame.initEffect_frame (Mapbox.set_cleanup false s2))
    as (_ & _ & El & _ & Emk & Eobj).
  fold s3 in El, Emk, Eobj. cbn in El, Emk, Eobj.
  destruct HQ as [Hoff Hmk Hmaps Hl].
  assert (HD3 : Display s3).
  { constructor.
    - intros _. rewrite Emk, Eobj. auto.
    - congruence. }
  destruct (Bool.eqb _ _); auto.
  rewrite Closed.syncEffect_idle; auto. right. congruence.
Qed.

Lemma unmount_display s : Inv s -> Display s -> Display (Mapbox.unmount s).
Proof.
  intros HI HD. destruct (Mapbox.mounted s) eqn:Hm.
  - apply quiet_display. now apply Invariant.unmount_quiet.
  - unfold Mapbox.unmount. now rewrite Hm.
Qed.

Lemma mount_display alerts : Display (Mapbox.mount alerts).
Proof.
  constructor; cbn; [|discriminate].
  intros _. split; [reflexivity|]. intros [|i] o; discriminate.
Qed.

Lemma client_step_display e s :
  Inv s -> Display s -> Display (ClientToken.step e s).
Proof.
  intros HI HD. destruct e as [v| |m|l|]; cbn.
  - destruct (ClientToken.render s); auto.
    destruct (Mapbox.mounted s); auto. now apply changeToken_display.
  - destruct (ClientToken.render s); auto.
    unfold ClientToken.handleTokenSubmit.
    destruct (_ && _); auto. destruct (truthy _); auto.
  - now apply loadEvent_display.
  - now apply newProps_display.
  - now apply unmount_display.
Qed.

Lemma server_perform_display a st :
  Inv (ServerToken.comp st) -> Display (ServerToken.comp st) ->
  Display (ServerToken.comp (ServerToken.perform a st)).
Proof.
  intros HI HD. destruct a as [v|v|label error]; cbn - [Mapbox.changeToken]; auto.
  - now apply changeToken_display.
  - eapply display_same with (s := ServerToken.comp st); auto.
Qed.

Lemma server_step_display e st :
  Inv (ServerToken.comp st) -> Display (ServerToken.comp st) ->
  Display (ServerToken.comp (ServerToken.step e st)).
Proof.
  intros HI HD. destruct e as [o|m|l|]; cbn.
  - unfold ServerToken.settle. destruct (ServerToken.pending st); auto.
    apply (Frame.forEach_keeps
             (fun x => Inv (ServerToken.comp x) /\ Display (ServerToken.comp x)));
      auto.
    intros a x [Hx Dx]. destruct a;
      try destruct (Mapbox.mounted (ServerToken.comp x)) eqn:Hm; auto;
      split; auto using server_perform_inv, server_perform_display.
  - now apply loadEvent_display.
  - now apply newProps_display.
  - now apply unmount_display.
Qed.

Lemma reachable_display s : Reachable s -> Display s.
Proof.
  intros [(alerts & events & ->)|(alerts & events & ->)].
  - apply (Frame.forEach_keeps (fun x => Inv x /\ Display x)).
    + intros e x [Hx Dx]. split;
        auto using client_step_inv, client_step_display.
    + split; [apply Invariant.mount_inv | apply mount_display].
  - apply (Frame.forEach_keeps
             (fun x => Inv (ServerToken.comp x) /\ Display (ServerToken.comp x))).
    + intros e x [Hx Dx]. split;
        auto using server_step_inv, server_step_display.
    + split; [apply Invariant.mount_inv | apply mount_display].
Qed.

Lemma loadEvent_frame m s :
  Mapbox.alerts (Mapbox.loadEvent m s) = Mapbox.alerts s /\
  Mapbox.map_current (Mapbox.loadEvent m s) = Mapbox.map_current s /\
  Mapbox.mounted (Mapbox.loadEvent m s) = Mapbox.mounted s.
Proof.
  unfold Mapbox.loadEvent. destruct (nth_error (Mapbox.maps s) m) as [o|]; auto.
  destruct (_ && _); auto. destruct (Mapbox.isMapLoaded s); auto.
  destruct (Frame.syncEffect_frame
              (Mapbox.setIsMapLoaded true (Mapbox.onMapObj m Mapbox.fire_load s)))
    as (-> & _ & _ & _ & -> & _ & -> & _).
  auto.
Qed.

Lemma nothing_shown s m :
  (forall i o, nth_error (Mapbox.markerObjs s) i = Some o ->
               Mapbox.onMap o = None) ->
  Mapbox.shownOn m s = [].
Proof.
  intros Hoff. unfold Mapbox.shownOn. apply filter_none.
  intros i o Ho. now rewrite (Hoff _ _ Ho).
Qed.

(** C1, amended. The Leaflet panel renders one marker per alert, at the
    latitude and longitude of the alert, with a popup whose text contains
    the type and the SOS identifier of the alert.  In the Mapbox panels,
    once the map has loaded, the marker effect run for a list of N alerts
    leaves N markers in the collection and exactly these N markers on the
    current map, the i-th at the longitude and latitude of the i-th alert
    with a popup whose HTML contains its type and its SOS identifier.
    While the map is missing or has not loaded, the marker effect run for
    a list builds no marker, adds none to the collection and asks nothing
    of a map; in a state the panel can reach the collection is then empty
    and no marker is on any map. *)
Theorem markers_follow_alerts (l : list Alert) :
  (length (Leaflet.MapView_markers l) = length l /\
   forall i alert, nth_error l i = Some alert ->
     exists marker,
       nth_error (Leaflet.MapView_markers l) i = Some marker /\
       Leaflet.position marker = (latitude alert, longitude alert) /\
       contains (Leaflet.popupText (Leaflet.popup marker)) (type alert) /\
       contains (Leaflet.popupText (Leaflet.popup marker)) (sosId alert)) /\
  (forall s, Reachable s -> Mapbox.isMapLoaded s = true ->
     exists m, Mapbox.map_current s = Some m /\
     let s' := Mapbox.newProps l s in
     length (Mapbox.markers_current s') = length l /\
     Mapbox.shownOn m s' = List.map (markerOf m) l /\
     forall i alert, nth_error l i = Some alert ->
       exists ref marker popup,
         nth_error (Mapbox.markers_current s') i = Some ref /\
         nth_error (Mapbox.markerObjs s') ref = Some marker /\
         Mapbox.onMap marker = Some m /\
         Mapbox.lngLat marker = Some (longitude alert, latitude alert) /\
         Mapbox.markerPopup marker = Some popup /\
         contains (Mapbox.popupHTML popup) (type alert) /\
         contains (Mapbox.popupHTML popup) (sosId alert)) /\
  (forall s, Mapbox.map_current s = None \/ Mapbox.isMapLoaded s = false ->
     let s' := Mapbox.newProps l s in
     Mapbox.markerObjs s' = Mapbox.markerObjs s /\
     Mapbox.markers_current s' = Mapbox.markers_current s /\
     Mapbox.maps s' = Mapbox.maps s /\
     (Reachable s ->
      Mapbox.markers_current s' = [] /\ forall m, Mapbox.shownOn m s' = [])).
Proof.
  split; [|split].
  - split; [apply length_map|].
    intros i alert Hi. unfold Leaflet.MapView_markers.
    rewrite nth_error_map, Hi. eexists. split; [reflexivity|].
    cbn [Leaflet.position Leaflet.popup]. split; [reflexivity|].
    unfold Leaflet.popupText.
    cbn [String.concat Leaflet.heading Leaflet.sosLine Leaflet.statusLine app].
    split; find_substring.
  - intros s R Hl. assert (HI := reachable_inv R).
    destruct (loaded_has_map HI Hl) as (m & o & Hm & Ho & Hmt).
    exists m. split; [exact Hm|]. cbv zeta.
    destruct (@newProps_loaded s m l Hmt Hm Hl) as (Emk & Eobj & _).
    rewrite Emk. split; [apply length_seq|]. split.
    + unfold Mapbox.shownOn. rewrite Eobj, filter_app.
      rewrite filter_none, filter_all; [reflexivity| |].
      * intros x Hx. apply in_map_iff in Hx as (alert & <- & _). cbn.
        apply Nat.eqb_refl.
      * intros i x Hx. now rewrite (Invariant.cleared_off HI _ Hx).
    + intros i alert Hi.
      assert (Hlt : i < length l) by (apply nth_error_Some; congruence).
      exists (length (Mapbox.markerObjs s) + i), (markerOf m alert),
        (Mapbox.markerPopupOf alert).
      split; [now apply nth_error_seq_lt|]. split.
      * rewrite Eobj, nth_error_app2 by (rewrite length_removeAll; lia).
        rewrite length_removeAll.
        replace (length (Mapbox.markerObjs s) + i - length (Mapbox.markerObjs s))
          with i by lia.
        now rewrite nth_error_map, Hi.
      * repeat split; apply popup_mentions_alert.
  - intros s Hguard. cbv zeta.
    assert (Hsame : Mapbox.markerObjs (Mapbox.newProps l s) = Mapbox.markerObjs s /\
                    Mapbox.markers_current (Mapbox.newProps l s)
                    = Mapbox.markers_current s /\
                    Mapbox.maps (Mapbox.newProps l s) = Mapbox.maps s).
    { unfold Mapbox.newProps. destruct (Mapbox.mounted s); auto.
      rewrite Closed.syncEffect_idle by exact Hguard. auto. }
    destruct Hsame as (Eobj & Emk & Emaps).
    split; [exact Eobj|]. split; [exact Emk|]. split; [exact Emaps|].
    intros R. assert (HI := reachable_inv R).
    assert (Hl : Mapbox.isMapLoaded s = false).
    { destruct (Mapbox.isMapLoaded s) eqn:El; auto.
      destruct (inv_loaded HI El) as (m & o & Hm & _).
      destruct Hguard; congruence. }
    destruct (display_idle (reachable_display R) Hl) as [Hmk Hoff].
    split; [congruence|].
    intros m. apply nothing_shown. now rewrite Eobj.
Qed.

Lemma markers_follow_alerts_witness :
  let s := ClientToken.run [] [ClientToken.Change "pk.test"; ClientToken.Load 0] in
  let s0 := ClientToken.run [] [ClientToken.Change "pk.test"] in
  let l := [sampleAlert; otherAlert] in
  (exists m,
      Mapbox.map_current s = Some m /\
      length (Mapbox.markers_current (Mapbox.newProps l s)) = 2 /\
      Mapbox.shownOn m (Mapbox.newProps l s) = List.map (markerOf m) l) /\
  Mapbox.markers_current (Mapbox.newProps l s0) = [] /\
  Mapbox.shownOn 0 (Mapbox.newProps l s0) = [].
Proof.
  intros s s0 l.
  assert (R : Reachable s) by (left; eexists _, _; reflexivity).
  assert (R0 : Reachable s0) by (left; eexists _, _; reflexivity).
  destruct (markers_follow_alerts l) as (_ & Hloaded & Hidle).
  split.
  - destruct (Hloaded s R eq_refl) as (m & Hm & Hlen & Hshown & _).
    exists m. split; [exact Hm | split; [exact Hlen | exact Hshown]].
  - destruct (Hidle s0 (or_intror eq_refl)) as (_ & _ & _ & Hnone).
    destruct (Hnone R0) as [Hmk Hoff].
    split; [exact Hmk | exact (Hoff 0)].
Defined.

(** X8. In every state either Mapbox panel can reach: while the loaded
    flag is up, the markers on the current map are exactly the markers of
    the alerts of the props, in their order, and the collection holds one
    reference per alert; while the flag is down, the collection is empty
    and no marker is on any map. *)
Theorem map_shows_current_alerts (s : Mapbox.Comp) :
  Reachable s ->
  (Mapbox.isMapLoaded s = true ->
   exists m,
     Mapbox.map_current s = Some m /\
     Mapbox.shownOn m s = List.map (markerOf m) (Mapbox.alerts s) /\
     length (Mapbox.markers_current s) = length (Mapbox.alerts s)) /\
  (Mapbox.isMapLoaded s = false ->
   Mapbox.markers_current s = [] /\ forall m, Mapbox.shownOn m s = []).
Proof.
  intros R. destruct (reachable_display R) as [Hidle Hloaded]. split.
  - intros Hl. destruct (Hloaded Hl) as (m & o & Hm & _ & Hs & Hn & _).
    exists m. auto.
  - intros Hl. destruct (Hidle Hl) as [Hmk Hoff].
    split; [exact Hmk|]. intros m. now apply nothing_shown.
Qed.

Lemma map_shows_current_alerts_witness :
  let s := ServerToken.comp
             (ServerToken.run [sampleAlert]
                [ServerToken.Settle
                   (ServerToken.Resolved
                      (Some {| ServerToken.data_token := Some "pk.test" |}) None);
                 ServerToken.Props [otherAlert; unknownAlert];
                 ServerToken.Load 0]) in
  exists m,
    Mapbox.map_current s = Some m /\
    Mapbox.shownOn m s = List.map (markerOf m) [otherAlert; unknownAlert].
Proof.
  intros s.
  assert (R : Reachable s) by (right; eexists _, _; reflexivity).
  destruct (proj1 (map_shows_current_alerts R) eq_refl) as (m & Hm & Hs & _).
  exists m. split; [exact Hm | exact Hs].
Defined.

(** X9. In every reachable state with the loaded flag up and a list of
    alerts that is not empty, the camera of the current map is fitted, with
    padding 50, to bounds extended by the coordinates of exactly the alerts
    of the props, which are the positions of the markers on the map. *)
Theorem camera_fits_current_alerts (s : Mapbox.Comp) :
  Reachable s -> Mapbox.isMapLoaded s = true -> Mapbox.alerts s <> [] ->
  exists m o bounds,
    Mapbox.map_current s = Some m /\
    nth_error (Mapbox.maps s) m = Some o /\
    Mapbox.camera o = Mapbox.fitBounds bounds 50 /\
    bounds = List.map lngLatOf (Mapbox.alerts s) /\
    List.map Mapbox.lngLat (Mapbox.shownOn m s) = List.map Some bounds.
Proof.
  intros R Hl Hne.
  destruct (display_loaded (reachable_display R) Hl)
    as (m & o & Hm & Ho & Hs & _ & Hc).
  exists m, o, (List.map lngLatOf (Mapbox.alerts s)).
  repeat split; auto.
  rewrite Hs, !map_map. reflexivity.
Qed.

Lemma camera_fits_current_alerts_witness :
  let s := ClientToken.run [sampleAlert]
             [ClientToken.Change "pk.test"; ClientToken.Load 0;
              ClientToken.Props [otherAlert; sampleAlert]] in
  exists m o,
    nth_error (Mapbox.maps s) m = Some o /\
    Mapbox.camera o
    = Mapbox.fitBounds [lngLatOf otherAlert; lngLatOf sampleAlert] 50.
Proof.
  intros s.
  assert (R : Reachable s) by (left; eexists _, _; reflexivity).
  assert (Hne : Mapbox.alerts s <> []) by (vm_compute; discriminate).
  destruct (camera_fits_current_alerts R eq_refl Hne)
    as (m & o & bounds & _ & Ho & Hc & -> & _).
  exists m, o. split; [exact Ho | exact Hc].
Defined.

(** X10. Alerts given before the map has loaded are not lost: when the
    [load] event raises the loaded flag, the marker effect runs with the
    alerts of the props as they are then, and the markers on the map are
    theirs. *)
Theorem alerts_shown_when_map_loads (s : Mapbox.Comp) (m : nat) :
  Reachable s -> Mapbox.isMapLoaded s = false ->
  Mapbox.isMapLoaded (Mapbox.loadEvent m s) = true ->
  let s' := Mapbox.loadEvent m s in
  Mapbox.alerts s' = Mapbox.alerts s /\
  Mapbox.map_current s' = Some m /\
  Mapbox.shownOn m s' = List.map (markerOf m) (Mapbox.alerts s) /\
  length (Mapbox.markers_current s') = length (Mapbox.alerts s).
Proof.
  intros R Hl He s'. assert (HI := reachable_inv R).
  destruct (loadEvent_raises m HI Hl He) as (o & Hm & _).
  destruct (loadEvent_frame m s) as (Ea & Emc & _). fold s' in Ea, Emc.
  assert (HD := loadEvent_display m HI (reachable_display R)). fold s' in HD.
  destruct (display_loaded HD He) as (m' & o' & Hm' & _ & Hs & Hn & _).
  assert (m' = m) by congruence. subst m'.
  rewrite Ea in Hs, Hn. rewrite Emc. auto.
Qed.

Lemma alerts_shown_when_map_loads_witness :
  let s := ClientToken.run [] [ClientToken.Change "pk.test";
                               ClientToken.Props [sampleAlert; otherAlert]] in
  Mapbox.shownOn 0 s = [] /\
  Mapbox.shownOn 0 (Mapbox.loadEvent 0 s)
  = List.map (markerOf 0) [sampleAlert; otherAlert].
Proof.
  intros s.
  assert (R : Reachable s) by (left; eexists _, _; reflexivity).
  assert (He : Mapbox.isMapLoaded (Mapbox.loadEvent 0 s) = true)
    by (vm_compute; reflexivity).
  destruct (@alerts_shown_when_map_loads s 0 R eq_refl He) as (_ & _ & Hs & _).
  split; [vm_compute; reflexivity | exact Hs].
Defined.

(** X11. In every reachable state, each marker on the current map is the
    marker of one of the alerts of the props: it stands at the longitude and
    latitude of that alert, its title names the type and the SOS identifier,
    its classes contain those of the status, its content the emoji of the
    type, and its popup, offset by 25, contains the status. *)
Theorem shown_markers_belong_to_alerts
        (s : Mapbox.Comp) (m : nat) (marker : Mapbox.Marker) :
  Reachable s -> Mapbox.map_current s = Some m ->
  In marker (Mapbox.shownOn m s) ->
  exists alert popup,
    In alert (Mapbox.alerts s) /\
    Mapbox.lngLat marker = Some (longitude alert, latitude alert) /\
    Mapbox.title (Mapbox.element marker)
    = type alert ++ " - SOS #" ++ sosId alert /\
    contains (Mapbox.className (Mapbox.element marker))
             (Mapbox.getStatusColor (status alert)) /\
    contains (Mapbox.innerHTML (Mapbox.element marker))
             (Mapbox.getTypeIcon (type alert)) /\
    Mapbox.markerPopup marker = Some popup /\
    Mapbox.offset popup = 25%Z /\
    contains (Mapbox.popupHTML popup) (status alert).
Proof.
  intros R Hm Hin. destruct (reachable_display R) as [Hidle Hloaded].
  destruct (Mapbox.isMapLoaded s) eqn:El.
  - destruct (Hloaded eq_refl) as (m' & o & Hm' & _ & Hs & _).
    assert (m' = m) by congruence. subst m'.
    rewrite Hs in Hin. apply in_map_iff in Hin as (alert & <- & Hal).
    exists alert, (Mapbox.markerPopupOf alert).
    split; [exact Hal|].
    cbn [markerOf Mapbox.lngLat Mapbox.element Mapbox.markerPopup
         Mapbox.markerElement Mapbox.title Mapbox.className Mapbox.innerHTML
         Mapbox.markerPopupOf Mapbox.offset Mapbox.popupHTML].
    repeat split; find_substring.
  - destruct (Hidle eq_refl) as [_ Hoff].
    rewrite (nothing_shown s m Hoff) in Hin. destruct Hin.
Qed.

Lemma shown_markers_belong_to_alerts_witness :
  let s := ClientToken.run [unknownAlert]
             [ClientToken.Change "pk.test"; ClientToken.Load 0] in
  exists alert popup,
    In alert (Mapbox.alerts s) /\
    Mapbox.title (Mapbox.element (markerOf 0 unknownAlert))
    = type alert ++ " - SOS #" ++ sosId alert /\
    Mapbox.markerPopup (markerOf 0 unknownAlert) = Some popup.
Proof.
  intros s.
  assert (R : Reachable s) by (left; eexists _, _; reflexivity).
  assert (Hin : In (markerOf 0 unknownAlert) (Mapbox.shownOn 0 s))
    by (vm_compute; left; reflexivity).
  destruct (@shown_markers_belong_to_alerts s 0 _ R eq_refl Hin)
    as (alert & popup & Ha & _ & Ht & _ & _ & Hp & _).
  exists alert, popup. split; [exact Ha | split; [exact Ht | exact Hp]].
Defined.

(** ** One token, one map *)

Lemma single_same s s' :
  Mapbox.mapboxToken s' = Mapbox.mapboxToken s ->
  Mapbox.maps s' = Mapbox.maps s ->
  Mapbox.map_current s' = Mapbox.map_current s ->
  Mapbox.cleanup s' = Mapbox.cleanup s ->
  Mapbox.accessToken s' = Mapbox.accessToken s ->
  Mapbox.mounted s' = Mapbox.mounted s ->
  Single s -> Single s'.
Proof.
  intros E1 E2 E3 E4 E5 E6 [H1 H2 H3 H4 H5|o H1 H2 H3 H4 H5 H6 H7 H8 H9 H10].
  - apply single_none; congruence.
  - apply (@single_built s' o); congruence.
Qed.

Lemma single_onMapObj s m f :
  keepsBuild f -> Single s -> Single (Mapbox.onMapObj m f s).
Proof.
  intros Hf [H1 H2 H3 H4 H5|o H1 H2 H3 H4 H5 H6 H7 H8 H9 H10].
  - apply single_none; cbn; auto. rewrite H2. now destruct m.
  - destruct (Hf o) as (Ft & Fs & Fc & Fl & Fr).
    destruct m as [|m].
    + apply (@single_built _ (f o)); cbn; try congruence.
      now rewrite H2.
    + apply (@single_built _ o); cbn; try congruence.
      rewrite H2. cbn. now destruct m.
Qed.

Lemma keepsBuild_camera c : keepsBuild (Mapbox.set_camera c).
Proof. intros o. cbn. auto. Qed.

Lemma keepsBuild_fire : keepsBuild Mapbox.fire_load.
Proof. intros o. cbn. auto. Qed.

Lemma syncEffect_single s : Single s -> Single (Mapbox.syncEffect s).
Proof.
  intros HS.
  destruct (Mapbox.map_current s) as [m|] eqn:Em;
    [|rewrite Closed.syncEffect_idle; auto].
  destruct (Mapbox.isMapLoaded s) eqn:El;
    [|rewrite Closed.syncEffect_idle; auto].
  destruct (@syncEffect_loaded s m Em El) as (_ & _ & Emaps).
  destruct (Frame.syncEffect_frame s)
    as (_ & Et & _ & _ & Emc & Ecl & Emt & Eat).
  destruct (0 <? length (Mapbox.alerts s))%nat.
  - eapply single_same;
      [..|apply (single_onMapObj m (keepsBuild_camera
                   (Mapbox.fitBounds (List.map lngLatOf (Mapbox.alerts s)) 50))
                   HS)]; cbn; auto.
  - eapply single_same; [..|exact HS]; auto.
Qed.

(** The first token: typed or fetched into an empty cell of a mounted
    component whose render shows the container when the token is not
    empty. *)
Lemma changeToken_single v s :
  Single s -> Mapbox.mapboxToken s = "" -> Mapbox.mounted s = true ->
  Single (Mapbox.changeToken v (truthy v) s).
Proof.
  intros HS Ht Hm. unfold Mapbox.changeToken. rewrite Ht.
  destruct v as [|c r]; [exact HS|]. cbn [String.eqb].
  destruct HS as [_ H2 H3 H4 H5|o H1]; [|congruence].
  cbn [truthy]. cbn [Mapbox.cleanup Mapbox.set_mapContainer Mapbox.setMapboxToken].
  rewrite H4.
  rewrite Invariant.initEffect_eq by (cbn; congruence).
  cbn. rewrite H2, Bool.eqb_reflx.
  apply (@single_built _ (builtMap (String c r))); cbn; rewrite ?Hm; auto.
  discriminate.
Qed.

Lemma loadEvent_single m s : Single s -> Single (Mapbox.loadEvent m s).
Proof.
  intros HS. unfold Mapbox.loadEvent.
  destruct (nth_error (Mapbox.maps s) m) as [o|]; auto.
  destruct (_ && _); auto.
  assert (HS2 : Single (Mapbox.setIsMapLoaded true
                          (Mapbox.onMapObj m Mapbox.fire_load s))).
  { eapply single_same;
      [..|apply (single_onMapObj m keepsBuild_fire HS)]; auto. }
  destruct (Mapbox.isMapLoaded s); auto using syncEffect_single.
Qed.

Lemma newProps_single l s : Single s -> Single (Mapbox.newProps l s).
Proof.
  intros HS. unfold Mapbox.newProps. destruct (Mapbox.mounted s); auto.
  apply syncEffect_single. eapply single_same; [..|exact HS]; auto.
Qed.

Lemma unmount_single s : Single s -> Single (Mapbox.unmount s).
Proof.
  intros HS. unfold Mapbox.unmount.
  destruct (Mapbox.mounted s) eqn:Hm; auto.
  destruct HS as [H1 H2 H3 H4 H5|o H1 H2 H3 H4 H5 H6 H7 H8 H9 H10].
  - rewrite H4. apply single_none; cbn; auto.
  - rewrite H10, Hm, Closed.cleanupEffect_eq, H3.
    apply (@single_built _ (Mapbox.map_remove o)); cbn; auto.
    now rewrite H2.
Qed.

Lemma mount_single alerts : Single (Mapbox.mount alerts).
Proof. apply single_none; reflexivity. Qed.

Lemma client_step_single e s : Single s -> Single (ClientToken.step e s).
Proof.
  intros HS. destruct e as [v| |m|l|]; cbn.
  - unfold ClientToken.render.
    destruct (Mapbox.mapboxToken s) as [|c r] eqn:Et; cbn; auto.
    destruct (Mapbox.mounted s) eqn:Hm; auto.
    unfold ClientToken.onChange.
    replace (ClientToken.containerShown
               (ClientToken.render (Mapbox.setMapboxToken v s)))
      with (truthy v) by (unfold ClientToken.render; now destruct v).
    now apply changeToken_single.
  - destruct (ClientToken.render s); auto.
    unfold ClientToken.handleTokenSubmit.
    destruct (_ && _); auto. destruct (truthy _); auto.
  - now apply loadEvent_single.
  - now apply newProps_single.
  - now apply unmount_single.
Qed.

Lemma client_run_single alerts events :
  Single (ClientToken.run alerts events).
Proof.
  apply (Frame.forEach_keeps Single); auto using client_step_single.
  apply mount_single.
Qed.

Lemma newProps_mounted l s :
  Mapbox.mounted (Mapbox.newProps l s) = Mapbox.mounted s.
Proof.
  unfold Mapbox.newProps. destruct (Mapbox.mounted s) eqn:Hm; auto.
  now destruct (Frame.syncEffect_frame (Mapbox.set_alerts l s))
    as (_ & _ & _ & _ & _ & _ & -> & _).
Qed.

Lemma unmount_mounted s : Mapbox.mounted (Mapbox.unmount s) = false.
Proof.
  unfold Mapbox.unmount. destruct (Mapbox.mounted s) eqn:Hm; auto.
Qed.

(** An event that changes the component only, keeps its token and does
    not mount it. *)
Lemma serverinv_comp st c :
  ServerInv st -> Single c ->
  Mapbox.mapboxToken c = Mapbox.mapboxToken (ServerToken.comp st) ->
  (Mapbox.mounted c = true -> Mapbox.mounted (ServerToken.comp st) = true) ->
  ServerInv (ServerToken.set_comp c st).
Proof.
  intros [H1 H2 H3 H4] HS Et Hm. constructor; cbn; rewrite ?Et; auto.
Qed.

Lemma server_settle_sinv o st :
  ServerInv st -> ServerInv (ServerToken.settle o st).
Proof.
  intros HV. unfold ServerToken.settle.
  destruct (ServerToken.pending st) eqn:Ep; auto.
  destruct (sv_pending HV Ep) as [Et Ee].
  assert (HS := sv_single HV).
  assert (Hquiet : forall console,
             Mapbox.mounted (ServerToken.comp st) = false ->
             ServerInv {| ServerToken.comp := ServerToken.comp st;
                          ServerToken.tokenError := ServerToken.tokenError st;
                          ServerToken.pending := false;
                          ServerToken.invocations := ServerToken.invocations st;
                          ServerToken.console := console |}).
  { intros console Hm. constructor; cbn; auto; congruence. }
  assert (Herror : forall console,
             ServerInv {| ServerToken.comp :=
                            Mapbox.set_mapContainer false (ServerToken.comp st);
                          ServerToken.tokenError := true;
                          ServerToken.pending := false;
                          ServerToken.invocations := ServerToken.invocations st;
                          ServerToken.console := console |}).
  { intros console. constructor; cbn; auto; try congruence.
    eapply single_same; [..|exact HS]; auto. }
  destruct (Mapbox.mounted (ServerToken.comp st)) eqn:Hm.
  - destruct o as [reason|[[[[|c r]|]]|] [e|]];
      cbn - [Mapbox.changeToken]; rewrite ?Hm; cbn - [Mapbox.changeToken];
      try apply Herror.
    rewrite Ee. cbn - [Mapbox.changeToken].
    constructor; cbn - [Mapbox.changeToken]; try congruence.
    + now apply (changeToken_single (String c r)).
    + intros _ _. right. split; [reflexivity|].
      rewrite Frame.changeToken_token. discriminate.
  - destruct o as [reason|[[[[|c r]|]]|] [e|]];
      cbn - [Mapbox.changeToken]; rewrite ?Hm; cbn - [Mapbox.changeToken];
      now apply Hquiet.
Qed.

Lemma server_step_sinv e st : ServerInv st -> ServerInv (ServerToken.step e st).
Proof.
  intros HV. destruct e as [o|m|l|]; cbn [ServerToken.step].
  - now apply server_settle_sinv.
  - apply serverinv_comp; auto.
    + apply loadEvent_single, (sv_single HV).
    + apply Frame.loadEvent_token.
    + now destruct (loadEvent_frame m (ServerToken.comp st)) as (_ & _ & ->).
  - apply serverinv_comp; auto.
    + apply newProps_single, (sv_single HV).
    + apply Frame.newProps_token.
    + now rewrite newProps_mounted.
  - apply serverinv_comp; auto.
    + apply unmount_single, (sv_single HV).
    + apply Frame.unmount_token.
    + rewrite unmount_mounted. discriminate.
Qed.

Lemma server_run_sinv alerts events : ServerInv (ServerToken.run alerts events).
Proof.
  apply (Frame.forEach_keeps ServerInv); auto using server_step_sinv.
  constructor; cbn; auto; try discriminate. apply mount_single.
Qed.

Lemma reachable_single s : Reachable s -> Single s.
Proof.
  intros [(alerts & events & ->)|(alerts & events & ->)].
  - apply client_run_single.
  - apply (sv_single (server_run_sinv alerts events)).
Qed.

(** X12. Neither Mapbox panel ever builds a second map.  In every
    reachable state either the token cell is empty and no map was built, or
    it is not empty and exactly one map was built, which is the current
    one; that map was built with the token of the cell, which is also the
    access token of the SDK, and still has the style, the navigation
    control at the top right and the load listener it was given. *)
Theorem at_most_one_map (s : Mapbox.Comp) :
  Reachable s ->
  (Mapbox.mapboxToken s = "" /\ Mapbox.maps s = [] /\
   Mapbox.map_current s = None /\ Mapbox.accessToken s = "") \/
  (exists o,
      Mapbox.mapboxToken s <> "" /\ Mapbox.maps s = [o] /\
      Mapbox.map_current s = Some 0 /\
      Mapbox.token o = Mapbox.mapboxToken s /\
      Mapbox.accessToken s = Mapbox.mapboxToken s /\
      Mapbox.style o = "mapbox://styles/mapbox/light-v11" /\
      Mapbox.controls o = [("NavigationControl", "top-right")] /\
      Mapbox.loadListener o = true).
Proof.
  intros R.
  destruct (reachable_single R)
    as [H1 H2 H3 H4 H5|o H1 H2 H3 H4 H5 H6 H7 H8 H9 H10].
  - left. auto.
  - right. exists o. repeat split; auto.
Qed.

Lemma at_most_one_map_witness :
  let s := ClientToken.run [sampleAlert]
             [ClientToken.Change "p"; ClientToken.Change "pk";
              ClientToken.Load 0; ClientToken.Props []; ClientToken.Load 1] in
  exists o, Mapbox.maps s = [o] /\ Mapbox.token o = "p".
Proof.
  intros s.
  assert (R : Reachable s) by (left; eexists _, _; reflexivity).
  destruct (at_most_one_map R) as [(Ht & _)|(o & _ & Hmaps & _ & Ho & _)].
  - vm_compute in Ht. discriminate Ht.
  - exists o. split; [exact Hmaps|]. rewrite Ho. vm_compute. reflexivity.
Defined.

(** X13. The map is released by unmount and by nothing else: in every
    reachable state a map that was built is removed exactly when the
    component is no longer mounted; and the map effect has a cleanup waiting
    exactly when the component is mounted and a map was built, so a mounted
    panel without a token has none. *)
Theorem map_removed_exactly_at_unmount (s : Mapbox.Comp) :
  Reachable s ->
  (forall m o, nth_error (Mapbox.maps s) m = Some o ->
               Mapbox.removed o = negb (Mapbox.mounted s)) /\
  (Mapbox.cleanup s = true <->
   Mapbox.mounted s = true /\ Mapbox.maps s <> []) /\
  (Mapbox.maps s <> [] <-> Mapbox.mapboxToken s <> "").
Proof.
  intros R.
  destruct (reachable_single R)
    as [H1 H2 H3 H4 H5|o' H1 H2 H3 H4 H5 H6 H7 H8 H9 H10].
  - rewrite H2, H4, H1. split; [|split].
    + intros [|m] o; discriminate.
    + split; [discriminate | intros [_ H]; congruence].
    + split; congruence.
  - rewrite H2, H10. split; [|split].
    + intros m o Ho. destruct m as [|m]; [|destruct m; discriminate].
      injection Ho as <-. exact H9.
    + split; [intros Hm; split; [exact Hm | discriminate] | tauto].
    + split; [intros _; exact H1 | discriminate].
Qed.

Lemma map_removed_exactly_at_unmount_witness :
  let s := ClientToken.run [sampleAlert]
             [ClientToken.Change "pk.test"; ClientToken.Load 0;
              ClientToken.Props [otherAlert]] in
  exists o, nth_error (Mapbox.maps s) 0 = Some o /\
            Mapbox.removed o = negb (Mapbox.mounted s) /\
            Mapbox.mounted s = true /\
            Mapbox.cleanup (Mapbox.mount [sampleAlert]) <> true.
Proof.
  intros s.
  assert (R : Reachable s) by (left; eexists _, _; reflexivity).
  assert (R0 : Reachable (Mapbox.mount [sampleAlert]))
    by (left; exists [sampleAlert], []; reflexivity).
  destruct (nth_error (Mapbox.maps s) 0) as [o|] eqn:Eo;
    [|vm_compute in Eo; discriminate Eo].
  exists o. split; [reflexivity|].
  split; [apply (proj1 (@map_removed_exactly_at_unmount s R) 0 o Eo)|].
  split; [vm_compute; reflexivity|].
  intros Hc.
  destruct (proj1 (proj1 (proj2 (@map_removed_exactly_at_unmount _ R0))) Hc)
    as [_ Hmaps].
  apply Hmaps. reflexivity.
Defined.

(** X14. A token, once in the cell, stays: in the panel with a typed
    token no event changes a token that is not empty, since the input leaves
    the screen with the first character; in the panel with a fetched token
    no event changes the token of a reachable state in which it is not
    empty, since the request settles once. *)
Theorem token_is_fixed_once_set
        (s : Mapbox.Comp) (e : ClientToken.Event)
        (alerts : list Alert) (events : list ServerToken.Event)
        (e' : ServerToken.Event) :
  (Mapbox.mapboxToken s <> "" ->
   Mapbox.mapboxToken (ClientToken.step e s) = Mapbox.mapboxToken s) /\
  (let st := ServerToken.run alerts events in
   Mapbox.mapboxToken (ServerToken.comp st) <> "" ->
   Mapbox.mapboxToken (ServerToken.comp (ServerToken.step e' st))
   = Mapbox.mapboxToken (ServerToken.comp st)).
Proof.
  split.
  - intros Ht. destruct e as [v| |m|l|]; cbn.
    + unfold ClientToken.render.
      destruct (Mapbox.mapboxToken s) eqn:E; [congruence | cbn; exact E].
    + destruct (ClientToken.render s); auto.
      unfold ClientToken.handleTokenSubmit.
      destruct (_ && _); auto. destruct (truthy _); auto.
    + apply Frame.loadEvent_token.
    + apply Frame.newProps_token.
    + apply Frame.unmount_token.
  - intros st Ht. destruct e' as [o|m|l|]; cbn.
    + unfold ServerToken.settle.
      destruct (ServerToken.pending st) eqn:Ep; auto.
      destruct (server_pending_state alerts events Ep) as [Et _].
      fold st in Et. congruence.
    + apply Frame.loadEvent_token.
    + apply Frame.newProps_token.
    + apply Frame.unmount_token.
Qed.

Lemma token_is_fixed_once_set_witness :
  let s := ClientToken.run [] [ClientToken.Change "p"] in
  Mapbox.mapboxToken (ClientToken.step (ClientToken.Change "pk.test") s) = "p".
Proof.
  intros s.
  rewrite (proj1 (@token_is_fixed_once_set s (ClientToken.Change "pk.test")
                    [] [] ServerToken.Unmount)).
  - reflexivity.
  - discriminate.
Defined.

(** X15. The three views of the panel with a fetched token follow the
    request: in every reachable state of a mounted component the loading
    text is shown exactly while the request is in flight and the map panel
    exactly when the token cell is not empty; and a state with the error
    flag up has an empty token cell, no map, and shows the error
    message. *)
Theorem views_follow_the_request
        (alerts : list Alert) (events : list ServerToken.Event) :
  let st := ServerToken.run alerts events in
  (Mapbox.mounted (ServerToken.comp st) = true ->
   (ServerToken.render st = ServerToken.Loading "Loading map..."
    <-> ServerToken.pending st = true) /\
   (ServerToken.render st = ServerToken.MapPanel
    <-> Mapbox.mapboxToken (ServerToken.comp st) <> "")) /\
  (ServerToken.tokenError st = true ->
   Mapbox.mapboxToken (ServerToken.comp st) = "" /\
   Mapbox.maps (ServerToken.comp st) = [] /\
   Mapbox.map_current (ServerToken.comp st) = None /\
   ServerToken.render st
   = ServerToken.ErrorMessage
       "Mapbox token not configured. Please contact administrator.").
Proof.
  intros st. destruct (server_run_sinv alerts events) as [HS Hp Hs He].
  fold st in HS, Hp, Hs, He. split.
  - intros Hm. unfold ServerToken.render. split; split.
    + intros Hr. destruct (ServerToken.pending st) eqn:Ep; auto.
      destruct (Hs eq_refl Hm) as [[Ee Et]|[Ee Et]]; rewrite Ee in Hr;
        [discriminate|].
      destruct (Mapbox.mapboxToken (ServerToken.comp st));
        [congruence | discriminate].
    + intros Ep. destruct (Hp Ep) as [-> ->]. reflexivity.
    + destruct (ServerToken.tokenError st); [discriminate|].
      destruct (Mapbox.mapboxToken (ServerToken.comp st)); cbn;
        [discriminate | intros _; discriminate].
    + intros Ht. destruct (ServerToken.tokenError st) eqn:Ee.
      * now rewrite (He eq_refl) in Ht.
      * destruct (Mapbox.mapboxToken (ServerToken.comp st));
          [congruence | reflexivity].
  - intros Ee. assert (Et := He Ee). unfold ServerToken.render. rewrite Ee.
    destruct HS as [H1 H2 H3 H4 H5|o H1]; [auto | congruence].
Qed.

Lemma views_follow_the_request_witness :
  let st := ServerToken.run [sampleAlert]
              [ServerToken.Props [otherAlert];
               ServerToken.Settle
                 (ServerToken.Resolved
                    (Some {| ServerToken.data_token := None |}) None)] in
  ServerToken.pending st = false /\
  Mapbox.maps (ServerToken.comp st) = [] /\
  ServerToken.render st
  = ServerToken.ErrorMessage
      "Mapbox token not configured. Please contact administrator.".
Proof.
  intros st.
  destruct (proj2 (views_follow_the_request [sampleAlert]
                     [ServerToken.Props [otherAlert];
                      ServerToken.Settle
                        (ServerToken.Resolved
                           (Some {| ServerToken.data_token := None |}) None)])
              eq_refl) as (_ & Hmaps & _ & Hr).
  split; [reflexivity | split; [exact Hmaps | exact Hr]].
Defined.

Lemma token_error_is_never_cleared_witness :
  let st := ServerToken.run [sampleAlert]
              [ServerToken.Settle (ServerToken.Rejected "offline")] in
  ServerToken.tokenError
    (ServerToken.step
       (ServerToken.Settle
          (ServerToken.Resolved
             (Some {| ServerToken.data_token := Some "pk.test" |}) None)) st)
  = true.
Proof.
  intros st. apply token_error_is_never_cleared. reflexivity.
Defined.
